(** * The SQLite wrapper of the desktop/mobile database worker

    A shallow embedding of the [SQLite] class (prepared-statement cache,
    prepare retries, result normalisation, deferred loading of the search
    extensions) and the properties the specification states about it.

    The class is a thin layer over a native engine.  Everything the engine
    decides (does this text compile, what does a statement return, is the
    database decrypted yet) is taken from an oracle, [Native], whose answers
    may depend on the whole history of native calls made so far.  The class
    itself is a state-and-exception monad over the object's fields and that
    history. *)

From Stdlib Require Import ZArith QArith Lia.
From stdpp Require Import base option list gmap strings pretty.

Local Open Scope string_scope.
Local Open Scope list_scope.
Local Open Scope nat_scope.

(** ** JavaScript values the wrapper looks at *)

(** What a [throw] can carry.  The wrapper tests [ex instanceof Error] before
    it touches [message], so both kinds of thrown value are kept apart. *)
Inductive Thrown :=
| ErrorObj (message : string)
| NonError (value : string).

(** A JavaScript [number].  The wrapper observes a number only through
    [isNaN] and [BigInt(...)], so a finite number is kept as the rational it
    denotes. *)
Inductive number :=
| NaN
| Infinity (negative : bool)
| Finite (q : Q).

Definition isNaN (n : number) : bool :=
  match n with NaN => true | _ => false end.

Definition is_integer (q : Q) : bool :=
  (Qnum q mod Zpos (Qden q) =? 0)%Z.

(** The [RangeError] of [BigInt(n)] for a number that is not an integer.  Its
    message quotes the number as the runtime prints it, [rendered]. *)
Definition BigInt_RangeError (rendered : string) : Thrown :=
  ErrorObj ("The number " +:+ rendered +:+
            " cannot be converted to a BigInt because it is not an integer").

(** [BigInt(n)] for a number [n]: the integer itself, or a [RangeError].
    [toString] is the runtime's rendering of a number, which the message of
    the error quotes. *)
Definition BigInt (toString : number → string) (n : number) : Thrown + Z :=
  match n with
  | Finite q =>
      if is_integer q then inr (Qnum q / Zpos (Qden q))%Z
      else inl (BigInt_RangeError (toString n))
  | _ => inl (BigInt_RangeError (toString n))
  end.

(** [T | undefined | null] *)
Inductive Nullable (A : Type) :=
| Undefined
| Null
| Defined (a : A).
Arguments Undefined {A}.
Arguments Null {A}.
Arguments Defined {A} a.

(** [type SQLiteCompatibleType] *)
Inductive SQLiteCompatibleType :=
| PNumber (n : number)
| PString (s : string)
| PUint8Array (bytes : list Z)
| PArray (ns : list number)
| PBigint (z : Z)
| PNull.

Definition Row := list (string * SQLiteCompatibleType).

(** ** The native engine *)

Inductive Database := Handle (id : nat).

(** A compiled statement is an object: [stmt_id] is its identity. *)
Record Statement := mkStatement {
  stmt_id : nat;
  source : string;
  reader : bool
}.

(** [number | bigint] *)
Inductive RowId :=
| RowNumber (n : number)
| RowBigint (z : Z).

(** The info object of [Statement.run]. *)
Record RunResult := mkRunResult {
  changes : Nullable number;
  lastInsertRowid : Nullable RowId
}.

Inductive Extension := BetterTrigram | Fts5Html.

Inductive LogArg :=
| LogText (s : string)
| LogThrown (e : Thrown).

(** One entry per call that leaves the class: into the engine, the two
    extension packages, the file system or the console. *)
Inductive Event :=
| EvOpen (filePath : string)
| EvPrepare (db : Database) (sql : string)
| EvAll (stmt : Statement) (parameters : list SQLiteCompatibleType)
| EvRun (stmt : Statement) (parameters : list SQLiteCompatibleType)
| EvLoad (ext : Extension) (db : option Database)
| EvClose (db : Database)
| EvUnlink (filePath : string) (force : bool)
| EvDelay (ms : nat)
| EvConsoleLog (args : list LogArg)
| EvConsoleWarn (args : list LogArg)
| EvConsoleError (args : list LogArg).

Definition History := list Event.

(** What [sqlite.prepare(sql)] can do: throw, hand back something falsy (the
    wrapper tests [!prepared]), or hand back a statement. *)
Inductive Compilation :=
| CompileThrows (ex : Thrown)
| CompileFalsy
| Compiled (prepared : Statement).

(** The engine as an oracle.  Each answer is a function of the history of
    calls so far, which is how a flaky compilation, or a database that becomes
    queryable once [PRAGMA key] has been run, is expressed.

    The calls the wrapper guards (with [try], or with retry options) can
    fail here.  [Database.close] and the [load] of the two extension packages
    are called bare by the wrapper and are recorded as events that succeed:
    the comment in [exec] explains that the load is held back until the
    database is queryable precisely because it fails before that.

    [native_toString] is the runtime's rendering of a number as a string,
    which is what the message of [BigInt]'s [RangeError] quotes. *)
Record Native := mkNative {
  native_open : History → string → Thrown + Database;
  native_prepare : History → Database → string → Compilation;
  native_all : History → Statement → list SQLiteCompatibleType → Thrown + list Row;
  native_run : History → Statement → list SQLiteCompatibleType → Thrown + RunResult;
  native_unlink : History → string → bool → option Thrown;
  native_toString : number → string
}.

(** ** The object and the monad *)

(** The fields of [class SQLite]. *)
Record SQLite := mkSQLite {
  sqlite : option Database;
  initialized : bool;
  preparedStatements : gmap string Statement;
  retryCounter : gmap string nat;
  extensionsLoaded : bool
}.

Record World := mkWorld {
  self : SQLite;
  history : History
}.

Inductive Completion (A : Type) :=
| Return (a : A)
| Throw (e : Thrown).
Arguments Return {A} a.
Arguments Throw {A} e.

Definition M (A : Type) : Type := World → Completion A * World.

Definition ret {A} (a : A) : M A := λ w, (Return a, w).

Definition throw {A} (e : Thrown) : M A := λ w, (Throw e, w).

Definition bind {A B} (m : M A) (k : A → M B) : M B :=
  λ w, match m w with
       | (Return a, w1) => k a w1
       | (Throw e, w1) => (Throw e, w1)
       end.

Notation "'let*' x ':=' m 'in' k" := (bind m (λ x, k))
  (at level 10, x name, m at level 100, k at level 200).
Notation "m ;;; k" := (bind m (λ _, k))
  (at level 100, k at level 200, right associativity).

(** [try { m } catch (e) { handler e }] *)
Definition try_catch {A} (m : M A) (handler : Thrown → M A) : M A :=
  λ w, match m w with
       | (Return a, w1) => (Return a, w1)
       | (Throw e, w1) => handler e w1
       end.

(** [try { m } finally { fin }]: [fin] runs on both exits; the completion of
    [m] stands unless [fin] itself throws. *)
Definition try_finally {A} (m : M A) (fin : M unit) : M A :=
  λ w, let '(c, w1) := m w in
       match fin w1 with
       | (Return _, w2) => (c, w2)
       | (Throw e, w2) => (Throw e, w2)
       end.

Definition emit (ev : Event) : M unit :=
  λ w, (Return tt, mkWorld (self w) (history w ++ [ev])).

Definition get_self : M SQLite := λ w, (Return (self w), w).

Definition get_history : M History := λ w, (Return (history w), w).

Definition modify_self (f : SQLite → SQLite) : M unit :=
  λ w, (Return tt, mkWorld (f (self w)) (history w)).

Definition set_sqlite (v : option Database) (o : SQLite) : SQLite :=
  mkSQLite v (initialized o) (preparedStatements o) (retryCounter o) (extensionsLoaded o).

Definition set_preparedStatements (v : gmap string Statement) (o : SQLite) : SQLite :=
  mkSQLite (sqlite o) (initialized o) v (retryCounter o) (extensionsLoaded o).

Definition set_retryCounter (v : gmap string nat) (o : SQLite) : SQLite :=
  mkSQLite (sqlite o) (initialized o) (preparedStatements o) v (extensionsLoaded o).

Definition set_extensionsLoaded (v : bool) (o : SQLite) : SQLite :=
  mkSQLite (sqlite o) (initialized o) (preparedStatements o) (retryCounter o) v.

(** ** [retryCounter: Record<string, number> = {}]

    The counters live in a plain object.  Reading a key that was never written
    gives [undefined], and [undefined < 5] is [false].  The key ["__proto__"]
    is not an own property: reading it gives the prototype (which compares
    like [undefined]) and writing a number to it is ignored.  The other
    inherited names ([constructor], [toString], ...) read as functions, which
    compare like [undefined] too, and are shadowed by the first write. *)
Module RetryCounter.

Definition own_key (k : string) : bool := negb (String.eqb k "__proto__").

Definition get (m : gmap string nat) (k : string) : option nat :=
  if own_key k then m !! k else None.

Definition set (k : string) (v : nat) (m : gmap string nat) : gmap string nat :=
  if own_key k then <[k := v]> m else m.

(** [counter < bound] *)
Definition lt (c : option nat) (bound : nat) : bool :=
  match c with
  | Some n => n <? bound
  | None => false
  end.

(** [counter || 0] *)
Definition or_zero (c : option nat) : nat :=
  match c with
  | Some n => n
  | None => 0
  end.

End RetryCounter.

(** [ex.message += ` (query: ${sql})`], under [ex instanceof Error]. *)
Definition annotate (sql : string) (ex : Thrown) : Thrown :=
  match ex with
  | ErrorObj message => ErrorObj (message +:+ " (query: " +:+ sql +:+ ")")
  | NonError v => NonError v
  end.

(** [QueryResult<R>] of the query builder: [rows], and the optional
    [numAffectedRows] and [insertId].  A key holding [undefined] and a key
    that is missing read the same ([undefined]); both are [None] here. *)
Record QueryResult := mkQueryResult {
  rows : list Row;
  numAffectedRows : option Z;
  insertId : option Z
}.

(** ** The methods of [class SQLite] *)

(** [new SQLite()] *)
Definition constructor (h : History) : World :=
  mkWorld (mkSQLite None false ∅ ∅ false)
          (h ++ [EvConsoleLog [LogText "new sqlite worker"]]).

(** How one activation of [prepare] ends: it returns, or it returns the
    promise of a further activation ([return this.prepare(sql)]). *)
Inductive Step :=
| Returned (prepared : option Statement)
| Recurse.

(** The options object of [rm]. *)
Record RmOptions := mkRmOptions {
  force : bool;
  maxRetries : nat;
  retryDelay : nat
}.

Section Wrapper.

Context (native : Native).

Definition open (filePath : string) : M unit :=
  let* o := get_self in
  match sqlite o with
  | Some _ => emit (EvConsoleError [LogText "Database is already initialized"])
  | None =>
      let* h := get_history in
      emit (EvOpen filePath) ;;;
      match native_open native h filePath with
      | inl ex => throw ex
      | inr db => modify_self (set_sqlite (Some db))
      end
  end.

(** The body of [prepare], up to the recursive call. *)
Definition prepare_attempt (sql : string) : M Step :=
  let* o := get_self in
  match sqlite o with
  | None => throw (ErrorObj "Database is not initialized.")
  | Some db =>
      try_catch
        (match preparedStatements o !! sql with
         | Some cached => ret (Returned (Some cached))
         | None =>
             let* h := get_history in
             emit (EvPrepare db sql) ;;;
             match native_prepare native h db sql with
             | CompileThrows ex => throw ex
             | CompileFalsy => ret (Returned None)
             | Compiled prepared =>
                 modify_self (λ o, set_preparedStatements
                                     (<[sql := prepared]> (preparedStatements o)) o) ;;;
                 modify_self (λ o, set_retryCounter
                                     (RetryCounter.set sql 0 (retryCounter o)) o) ;;;
                 ret (Returned (Some prepared))
             end
         end)
        (λ ex,
           emit (EvConsoleError [LogThrown ex]) ;;;
           let* o := get_self in
           let counter := RetryCounter.get (retryCounter o) sql in
           if RetryCounter.lt counter 5 then
             modify_self (λ o, set_retryCounter
                                 (RetryCounter.set sql (RetryCounter.or_zero counter + 1)
                                    (retryCounter o)) o) ;;;
             emit (EvConsoleWarn [LogText "Failed to prepare statement. Retrying:";
                                  LogText sql]) ;;;
             ret Recurse
           else
             modify_self (λ o, set_retryCounter
                                 (RetryCounter.set sql 0 (retryCounter o)) o) ;;;
             throw (annotate sql ex))
  end.

(** [prepare] with a bound on the depth of the recursion; [None] when the
    bound is reached. *)
Fixpoint prepare_fuel (fuel : nat) (sql : string) (w : World)
  : option (Completion (option Statement) * World) :=
  match fuel with
  | O => None
  | S fuel' =>
      match prepare_attempt sql w with
      | (Return (Returned prepared), w1) => Some (Return prepared, w1)
      | (Return Recurse, w1) => prepare_fuel fuel' sql w1
      | (Throw ex, w1) => Some (Throw ex, w1)
      end
  end.

(** An activation recurses only from a counter below 5 and after raising
    it, so six activations always suffice ([prepare_fuel_enough] below);
    the last branch is never taken. *)
Definition prepare_depth : nat := 6.

Definition prepare (sql : string) : M (option Statement) :=
  λ w, match prepare_fuel prepare_depth sql w with
       | Some r => r
       | None => (Throw (ErrorObj "Maximum call stack size exceeded"), w)
       end.

(** [private async isDatabaseReady()] *)
Definition isDatabaseReady : M bool :=
  let* o := get_self in
  match sqlite o with
  | None => ret false
  | Some db =>
      try_catch
        (let* h := get_history in
         emit (EvPrepare db "SELECT 1;") ;;;
         match native_prepare native h db "SELECT 1;" with
         | CompileThrows ex => throw ex
         | CompileFalsy =>
             throw (ErrorObj "Cannot read properties of undefined (reading 'run')")
         | Compiled probe =>
             let* h := get_history in
             emit (EvRun probe []) ;;;
             match native_run native h probe [] with
             | inl ex => throw ex
             | inr _ => ret true
             end
         end)
        (λ _, ret false)
  end.

(** The [try] block of [exec]. *)
Definition execute (prepared : Statement) (parameters : list SQLiteCompatibleType)
  : M QueryResult :=
  if reader prepared then
    let* h := get_history in
    emit (EvAll prepared parameters) ;;;
    match native_all native h prepared parameters with
    | inl ex => throw ex
    | inr produced => ret (mkQueryResult produced None None)
    end
  else
    let* h := get_history in
    emit (EvRun prepared parameters) ;;;
    match native_run native h prepared parameters with
    | inl ex => throw ex
    | inr info =>
        let* affected :=
          match changes info with
          | Defined c =>
              if isNaN c then ret None
              else match BigInt (native_toString native) c with
                   | inl ex => throw ex
                   | inr z => ret (Some z)
                   end
          | _ => ret None
          end in
        let* inserted :=
          match lastInsertRowid info with
          | Defined (RowBigint z) => ret (Some z)
          | Defined (RowNumber n) =>
              match BigInt (native_toString native) n with
              | inl ex => throw ex
              | inr z => ret (Some z)
              end
          | _ => ret None
          end in
        ret (mkQueryResult [] affected inserted)
    end.

(** The [finally] block of [exec]. *)
Definition load_extensions_when_ready : M unit :=
  let* o := get_self in
  if extensionsLoaded o then ret tt
  else
    let* ready := isDatabaseReady in
    if ready : bool then
      let* o := get_self in
      emit (EvLoad BetterTrigram (sqlite o)) ;;;
      emit (EvLoad Fts5Html (sqlite o)) ;;;
      modify_self (set_extensionsLoaded true)
    else ret tt.

Definition exec (sql : string) (parameters : list SQLiteCompatibleType) : M QueryResult :=
  let* prepared := prepare sql in
  match prepared with
  | None => ret (mkQueryResult [] None None)
  | Some prepared =>
      try_finally
        (try_catch (execute prepared parameters) (λ e, throw (annotate sql e)))
        load_extensions_when_ready
  end.

Definition run (sql : string) (parameters : option (list SQLiteCompatibleType))
  : M QueryResult :=
  let* o := get_self in
  match sqlite o with
  | None => throw (ErrorObj "No database is not opened.")
  | Some _ => exec sql (default [] parameters)
  end.

Definition close : M unit :=
  let* o := get_self in
  match sqlite o with
  | None => ret tt
  | Some db =>
      modify_self (set_preparedStatements ∅) ;;;
      emit (EvClose db) ;;;
      modify_self (set_sqlite None)
  end.

(** Modelled from the spec: [rm] of [fs/promises], which is the platform's
    and not part of the sources.  The specification describes it as a
    removal with bounded retries and a fixed delay between attempts that
    reports failure only after the retries are exhausted: one attempt, and
    after a failed attempt a wait of [retryDelay] and a further attempt, at
    most [maxRetries] times. *)
Fixpoint rm_attempts (retries : nat) (filePath : string) (options : RmOptions)
    (w : World) : Completion unit * World :=
  let w1 := mkWorld (self w) (history w ++ [EvUnlink filePath (force options)]) in
  match native_unlink native (history w) filePath (force options) with
  | None => (Return tt, w1)
  | Some ex =>
      match retries with
      | O => (Throw ex, w1)
      | S retries' =>
          rm_attempts retries' filePath options
            (mkWorld (self w1) (history w1 ++ [EvDelay (retryDelay options)]))
      end
  end.

Definition rm (filePath : string) (options : RmOptions) : M unit :=
  rm_attempts (maxRetries options) filePath options.

Definition delete (filePath : string) : M unit :=
  close ;;;
  rm filePath {| force := true; maxRetries := 5; retryDelay := 500 |}.

End Wrapper.

(** ** Engines to run the methods on *)

(** Has [PRAGMA key] been run yet? *)
Definition key_applied (h : History) : bool :=
  existsb (λ ev, match ev with
                 | EvRun stmt _ => String.eqb (source stmt) "PRAGMA key = 'secret';"
                 | _ => false
                 end) h.

Definition is_unlink (ev : Event) : bool :=
  match ev with EvUnlink _ _ => true | _ => false end.

(** The digits after the point of [r / den], for as long as they last. *)
Fixpoint fraction_digits (fuel : nat) (r den : Z) : string :=
  match fuel with
  | O => ""
  | S fuel' =>
      if (r =? 0)%Z then ""
      else pretty (r * 10 / den)%Z +:+ fraction_digits fuel' (r * 10 mod den)%Z den
  end.

(** How the small engine prints a number: [NaN], the infinities, and a
    finite number in plain decimal notation ([7], [0.5], [-1.25]). *)
Definition demo_toString (n : number) : string :=
  match n with
  | NaN => "NaN"
  | Infinity negative => if negative then "-Infinity" else "Infinity"
  | Finite q =>
      let den := Zpos (Qden q) in
      let a := Z.abs (Qnum q) in
      (if (Qnum q <? 0)%Z then "-" else "") +:+ pretty (a / den)%Z +:+
      (if (a mod den =? 0)%Z then "" else "." +:+ fraction_digits 20 (a mod den)%Z den)
  end.

(** A small engine.  With [encrypted] the database answers queries only
    after [PRAGMA key] has been run; without it, from the start.  It compiles
    pragmas and three statements, and every other text is a syntax error on
    every attempt.
    A statement's identity is the position of its compilation in the
    history.  The file is locked for the first two removal attempts. *)
Definition demo_native (encrypted : bool) : Native :=
  let queryable h := negb encrypted || key_applied h in
  mkNative
    (λ h filePath,
       if String.eqb filePath "" then inl (ErrorObj "unable to open database file")
       else inr (Handle (length h)))
    (λ h db sql,
       if String.prefix "PRAGMA " sql then
         Compiled (mkStatement (length h) sql false)
       else if String.eqb sql "SELECT 1;" || String.eqb sql "SELECT id FROM notes;" then
         if queryable h then Compiled (mkStatement (length h) sql true)
         else CompileThrows (ErrorObj "file is not a database")
       else if String.eqb sql "INSERT INTO notes (id) VALUES (?);" then
         if queryable h then Compiled (mkStatement (length h) sql false)
         else CompileThrows (ErrorObj "file is not a database")
       else CompileThrows (ErrorObj "syntax error"))
    (λ h stmt parameters,
       if queryable h then inr [[("id", PNumber (Finite 1))]; [("id", PNumber (Finite 2))]]
       else inl (ErrorObj "file is not a database"))
    (λ h stmt parameters,
       if String.prefix "PRAGMA " (source stmt) then
         inr (mkRunResult (Defined (Finite 0)) (Defined (RowNumber (Finite 0))))
       else if queryable h then
         match parameters with
         | [PBigint z] => inr (mkRunResult (Defined (Finite 1)) (Defined (RowBigint z)))
         | [PNumber (Finite q)] => inr (mkRunResult (Defined (Finite 1)) (Defined (RowNumber (Finite q))))
         | [] => inr (mkRunResult (Defined (Finite 0)) Undefined)
         | _ => inl (ErrorObj "Too many parameter values were provided")
         end
       else inl (ErrorObj "file is not a database"))
    (λ h filePath force,
       if length (List.filter is_unlink h) <? 2
       then Some (ErrorObj "EBUSY: resource busy or locked")
       else None)
    demo_toString.

(** A fresh worker, and one with the database opened. *)
Definition fresh_world : World := constructor [].

Definition opened_world (encrypted : bool) : World :=
  snd (open (demo_native encrypted) "notes.db" fresh_world).

(** The calls a client can make, to speak about sequences of them. *)
Inductive Call :=
| CallOpen (filePath : string)
| CallPrepare (sql : string)
| CallExec (sql : string) (parameters : list SQLiteCompatibleType)
| CallRun (sql : string) (parameters : option (list SQLiteCompatibleType))
| CallClose
| CallDelete (filePath : string).

Definition call (native : Native) (c : Call) (w : World) : World :=
  match c with
  | CallOpen filePath => snd (open native filePath w)
  | CallPrepare sql => snd (prepare native sql w)
  | CallExec sql parameters => snd (exec native sql parameters w)
  | CallRun sql parameters => snd (run native sql parameters w)
  | CallClose => snd (close w)
  | CallDelete filePath => snd (delete native filePath w)
  end.

(** A client that makes the calls one after the other, whatever each one
    returns or throws. *)
Definition calls (native : Native) (cs : list Call) (w : World) : World :=
  fold_left (λ w c, call native c w) cs w.

(** The extension loads recorded in a history. *)
Definition is_load (ev : Event) : bool :=
  match ev with EvLoad _ _ => true | _ => false end.

Definition loads (h : History) : list Event := List.filter is_load h.

(** The compilations of [sql] that the engine was asked for, and the
    retries [prepare] announced for it. *)
Definition is_compile_of (sql : string) (ev : Event) : bool :=
  match ev with EvPrepare _ s => String.eqb s sql | _ => false end.

Definition is_retry_of (sql : string) (ev : Event) : bool :=
  match ev with
  | EvConsoleWarn [LogText announcement; LogText s] =>
      String.eqb announcement "Failed to prepare statement. Retrying:" && String.eqb s sql
  | _ => false
  end.

Definition compilations (sql : string) (h : History) : nat :=
  length (List.filter (is_compile_of sql) h).

Definition retries (sql : string) (h : History) : nat :=
  length (List.filter (is_retry_of sql) h).

(** The object after [retryCounter[sql] = n]. *)
Definition counted (sql : string) (n : nat) (o : SQLite) : SQLite :=
  set_retryCounter (RetryCounter.set sql n (retryCounter o)) o.

(** The object after [preparedStatements.set(sql, prepared)] and the reset of
    the counter. *)
Definition cached_as (sql : string) (prepared : Statement) (o : SQLite) : SQLite :=
  counted sql 0 (set_preparedStatements (<[sql := prepared]> (preparedStatements o)) o).

(** How many more activations of [prepare] a failing compilation can cause. *)
Definition budget (sql : string) (w : World) : nat :=
  match RetryCounter.get (retryCounter (self w)) sql with
  | Some c => 5 - c
  | None => 0
  end.

(** Compilation of [sql] on [db] fails whenever it is tried. *)
Definition always_fails (native : Native) (db : Database) (sql : string) : Prop :=
  ∀ h, ∃ ex, native_prepare native h db sql = CompileThrows ex.

(** The message of an [Error] ends with the query it was raised for. *)
Definition carries_query (sql : string) (e : Thrown) : Prop :=
  match e with
  | ErrorObj message => ∃ original, message = original +:+ " (query: " +:+ sql +:+ ")"
  | NonError _ => True
  end.

(** What every [prepare] leaves alone: the handle, the flag, and the history
    it found, to which it adds no extension load. *)
Definition prepare_frame (w w' : World) : Prop :=
  sqlite (self w') = sqlite (self w) ∧
  initialized (self w') = initialized (self w) ∧
  extensionsLoaded (self w') = extensionsLoaded (self w) ∧
  ∃ added, history w' = history w ++ added ∧ loads added = [].

(** The two loads of the [finally] block, in the order of the source. *)
Definition extension_loads (db : option Database) : list Event :=
  [EvLoad BetterTrigram db; EvLoad Fts5Html db].

(** The change count is one the wrapper passes on: defined and not [NaN]. *)
Definition reported_count (c : Nullable number) : Prop :=
  match c with
  | Defined n => isNaN n = false
  | _ => False
  end.

(** The integer [z] is the number [n]. *)
Definition integer_of (n : number) (z : Z) : Prop :=
  match n with
  | Finite q => inject_Z z == q
  | _ => False
  end.

(** The event [execute] records for a statement. *)
Definition execution_event (prepared : Statement) (parameters : list SQLiteCompatibleType)
  : Event :=
  if reader prepared then EvAll prepared parameters else EvRun prepared parameters.

(** The affected-row count of a result, against the change count the engine
    reported: present exactly for a reported count, and then that integer. *)
Definition affected_matches (info : RunResult) (r : QueryResult) : Prop :=
  (is_Some (numAffectedRows r) ↔ reported_count (changes info)) ∧
  (∀ z, numAffectedRows r = Some z → ∃ n, changes info = Defined n ∧ integer_of n z).

(** The insert id of a result, against the row id the engine reported. *)
Definition insert_id_matches (info : RunResult) (r : QueryResult) : Prop :=
  match lastInsertRowid info with
  | Defined (RowBigint z) => insertId r = Some z
  | Defined (RowNumber n) => ∃ z, insertId r = Some z ∧ integer_of n z
  | _ => insertId r = None
  end.

(** [exec] as the specification words it: the probe-and-load step is a
    [finally] around the whole call, the preparation included. *)
Definition exec_spec (native : Native) (sql : string)
    (parameters : list SQLiteCompatibleType) : M QueryResult :=
  try_finally
    (let* prepared := prepare native sql in
     match prepared with
     | None => ret (mkQueryResult [] None None)
     | Some prepared =>
         try_catch (execute native prepared parameters) (λ e, throw (annotate sql e))
     end)
    (load_extensions_when_ready native).

(** What the readiness probe reports in the course of a call of [exec], when
    it runs there: the call must have a statement to execute, and the flag must
    still be down. *)
Definition probe_in_exec (native : Native) (sql : string)
    (parameters : list SQLiteCompatibleType) (w : World) : option bool :=
  match prepare native sql w with
  | (Return (Some prepared), w1) =>
      let w2 := snd (execute native prepared parameters w1) in
      if extensionsLoaded (self w2) then None
      else match fst (isDatabaseReady native w2) with
           | Return b => Some b
           | Throw _ => None
           end
  | _ => None
  end.

(** A step that neither moves the flag nor loads anything. *)
Definition quiet (w w' : World) : Prop :=
  extensionsLoaded (self w') = extensionsLoaded (self w) ∧
  loads (history w') = loads (history w).

(** A step that raises the flag, with the one pair of loads. *)
Definition flipped (w w' : World) : Prop :=
  extensionsLoaded (self w) = false ∧
  extensionsLoaded (self w') = true ∧
  ∃ db, loads (history w') = loads (history w) ++ extension_loads (Some db).

(** [k] failed removal attempts, each followed by the wait. *)
Definition rm_pairs (k : nat) (filePath : string) (options : RmOptions) : list Event :=
  concat (replicate k [EvUnlink filePath (force options); EvDelay (retryDelay options)]).

(** The options [delete] passes to [rm]. *)
Definition delete_options : RmOptions := mkRmOptions true 5 500.

(** With no handle there is nothing in the statement cache. *)
Definition cache_follows_handle (w : World) : Prop :=
  sqlite (self w) = None → preparedStatements (self w) = ∅.

(** The calls that leave the connection open. *)
Definition keeps_connection (c : Call) : bool :=
  match c with
  | CallClose | CallDelete _ => false
  | _ => true
  end.

(** ** Further engines and predicates *)

(** An engine whose compilations follow a script: the [i]-th compilation it
    is asked for of a text answers the [i]-th entry, and [afterwards] once the
    script is used up.  Everything else is as in [demo_native false]. *)
Definition scripted_native (script : list Compilation) (afterwards : Compilation) : Native :=
  mkNative
    (native_open (demo_native false))
    (λ h db sql, nth (compilations sql h) script afterwards)
    (native_all (demo_native false))
    (native_run (demo_native false))
    (native_unlink (demo_native false))
    (native_toString (demo_native false)).

(** From the history [h] on, the compilation of [sql] on [db] fails [k]
    times and then yields [prepared]. *)
Definition fails_then_compiles (native : Native) (db : Database) (sql : string)
    (h : History) (k : nat) (prepared : Statement) : Prop :=
  ∀ added,
    (compilations sql added < k →
     ∃ ex, native_prepare native (h ++ added) db sql = CompileThrows ex) ∧
    (compilations sql added = k →
     native_prepare native (h ++ added) db sql = Compiled prepared).

(** The calls that need an open handle to do anything. *)
Definition needs_handle (c : Call) : bool :=
  match c with
  | CallOpen _ | CallDelete _ => false
  | _ => true
  end.

(** No retry counter reads above the bound. *)
Definition counters_bounded (o : SQLite) : Prop :=
  ∀ sql c, RetryCounter.get (retryCounter o) sql = Some c → c ≤ 5.

(** Every retry counter reads 0, if it reads as a number at all. *)
Definition counters_at_rest (o : SQLite) : Prop :=
  ∀ sql c, RetryCounter.get (retryCounter o) sql = Some c → c = 0.

(** The same, but for the counter of [sql]. *)
Definition counters_at_rest_except (sql : string) (o : SQLite) : Prop :=
  ∀ sql' c, sql' ≠ sql → RetryCounter.get (retryCounter o) sql' = Some c → c = 0.

(** The counter of [sql] is at rest, or a retry of [sql] is under way. *)
Definition counter_in_retry (sql : string) (o : SQLite) : Prop :=
  ∀ c, RetryCounter.get (retryCounter o) sql = Some c →
       c = 0 ∨ (sqlite o ≠ None ∧ preparedStatements o !! sql = None).

(** The engine never hands back a falsy value for a compilation. *)
Definition never_falsy (native : Native) : Prop :=
  ∀ h db sql, native_prepare native h db sql ≠ CompileFalsy.

(** Every statement in the cache was compiled by the engine, from the text it
    is stored under, on the handle that is open now. *)
Definition cache_sound (native : Native) (o : SQLite) : Prop :=
  ∀ sql prepared,
    preparedStatements o !! sql = Some prepared →
    ∃ db h, sqlite o = Some db ∧ native_prepare native h db sql = Compiled prepared.

(** [BigInt] refuses the number. *)
Definition not_an_integer (n : number) : bool :=
  match n with
  | Finite q => negb (is_integer q)
  | _ => true
  end.

(** The first number of the engine's info object that [BigInt] refuses, in
    the order in which [exec] converts them: the change count, unless it is
    missing or [NaN], and then the row id, when it is a number. *)
Definition offending_number (info : RunResult) : option number :=
  let of_row_id :=
    match lastInsertRowid info with
    | Defined (RowNumber n) => if not_an_integer n then Some n else None
    | _ => None
    end in
  match changes info with
  | Defined c => if negb (isNaN c) && not_an_integer c then Some c else of_row_id
  | _ => of_row_id
  end.

(** [e] is what [ex] looks like once the query has been appended to its
    message: an [Error] with the longer message, and any other thrown value
    as it was. *)
Definition query_appended (sql : string) (ex e : Thrown) : Prop :=
  match ex with
  | ErrorObj message => e = ErrorObj (message +:+ " (query: " +:+ sql +:+ ")")
  | NonError v => e = NonError v
  end.

(** [ex] is what the execution of [prepared] throws after the history [h]:
    the engine's error from [all] or [run], or the [RangeError] of [BigInt]
    for the first number of the info object that is no integer. *)
Definition thrown_by_execution (native : Native) (prepared : Statement)
    (parameters : list SQLiteCompatibleType) (h : History) (ex : Thrown) : Prop :=
  if reader prepared then native_all native h prepared parameters = inl ex
  else native_run native h prepared parameters = inl ex ∨
       ∃ info n,
         native_run native h prepared parameters = inr info ∧
         offending_number info = Some n ∧
         ex = BigInt_RangeError (native_toString native n).

(** The engine answers the probe on [db] after the history [h]: it compiles
    [SELECT 1;] and runs the compiled statement. *)
Definition engine_ready (native : Native) (db : Database) (h : History) : bool :=
  match native_prepare native h db "SELECT 1;" with
  | Compiled probe =>
      match native_run native (h ++ [EvPrepare db "SELECT 1;"]) probe [] with
      | inr _ => true
      | inl _ => false
      end
  | _ => false
  end.

(** The engine never answers the probe. *)
Definition never_ready (native : Native) : Prop :=
  ∀ db h, engine_ready native db h = false.

(** * Properties *)

Ltac unfold_m :=
  unfold bind, ret, throw, try_catch, try_finally, emit, get_self, get_history,
    modify_self.

Lemma app_two {A} (l : list A) (a b : A) : (l ++ [a]) ++ [b] = l ++ [a; b].
Proof. by rewrite <- app_assoc. Qed.

Lemma app_three {A} (l : list A) (a b c : A) : ((l ++ [a]) ++ [b]) ++ [c] = l ++ [a; b; c].
Proof. by rewrite <- !app_assoc. Qed.

Section PrepareFacts.

Context (native : Native).

(** ** One activation of [prepare], case by case *)

Lemma prepare_attempt_closed sql w :
  sqlite (self w) = None →
  prepare_attempt native sql w = (Throw (ErrorObj "Database is not initialized."), w).
Proof.
  intros Hs. unfold prepare_attempt. unfold_m. by rewrite Hs.
Qed.

Lemma prepare_attempt_cached sql w db cached :
  sqlite (self w) = Some db →
  preparedStatements (self w) !! sql = Some cached →
  prepare_attempt native sql w = (Return (Returned (Some cached)), w).
Proof.
  intros Hs Hc. unfold prepare_attempt. unfold_m. by rewrite Hs, Hc.
Qed.

Lemma prepare_attempt_compiled sql w db prepared :
  sqlite (self w) = Some db →
  preparedStatements (self w) !! sql = None →
  native_prepare native (history w) db sql = Compiled prepared →
  prepare_attempt native sql w =
    (Return (Returned (Some prepared)),
     mkWorld (cached_as sql prepared (self w)) (history w ++ [EvPrepare db sql])).
Proof.
  intros Hs Hc Hn. unfold prepare_attempt. unfold_m. rewrite Hs, Hc. simpl.
  by rewrite Hn.
Qed.

Lemma prepare_attempt_falsy sql w db :
  sqlite (self w) = Some db →
  preparedStatements (self w) !! sql = None →
  native_prepare native (history w) db sql = CompileFalsy →
  prepare_attempt native sql w =
    (Return (Returned None), mkWorld (self w) (history w ++ [EvPrepare db sql])).
Proof.
  intros Hs Hc Hn. unfold prepare_attempt. unfold_m. rewrite Hs, Hc. simpl.
  by rewrite Hn.
Qed.

Lemma prepare_attempt_retry sql w db ex :
  sqlite (self w) = Some db →
  preparedStatements (self w) !! sql = None →
  native_prepare native (history w) db sql = CompileThrows ex →
  RetryCounter.lt (RetryCounter.get (retryCounter (self w)) sql) 5 = true →
  prepare_attempt native sql w =
    (Return Recurse,
     mkWorld
       (counted sql
          (RetryCounter.or_zero (RetryCounter.get (retryCounter (self w)) sql) + 1)
          (self w))
       (history w ++
          [EvPrepare db sql; EvConsoleError [LogThrown ex];
           EvConsoleWarn [LogText "Failed to prepare statement. Retrying:"; LogText sql]])).
Proof.
  intros Hs Hc Hn Hlt. unfold prepare_attempt. unfold_m. rewrite Hs, Hc. simpl.
  rewrite Hn. simpl. rewrite Hlt. simpl. by rewrite app_three.
Qed.

Lemma prepare_attempt_give_up sql w db ex :
  sqlite (self w) = Some db →
  preparedStatements (self w) !! sql = None →
  native_prepare native (history w) db sql = CompileThrows ex →
  RetryCounter.lt (RetryCounter.get (retryCounter (self w)) sql) 5 = false →
  prepare_attempt native sql w =
    (Throw (annotate sql ex),
     mkWorld (counted sql 0 (self w))
       (history w ++ [EvPrepare db sql; EvConsoleError [LogThrown ex]])).
Proof.
  intros Hs Hc Hn Hlt. unfold prepare_attempt. unfold_m. rewrite Hs, Hc. simpl.
  rewrite Hn. simpl. rewrite Hlt. simpl. by rewrite app_two.
Qed.

(** ** The recursion of [prepare] ends *)

Lemma counter_lt_inv m sql :
  RetryCounter.lt (RetryCounter.get m sql) 5 = true →
  ∃ c, RetryCounter.get m sql = Some c ∧ c < 5 ∧ RetryCounter.own_key sql = true.
Proof.
  unfold RetryCounter.lt, RetryCounter.get.
  destruct (RetryCounter.own_key sql); [|done].
  destruct (m !! sql) as [c|]; [|done].
  intros H%Nat.ltb_lt. eauto.
Qed.

Lemma counter_get_set m sql n :
  RetryCounter.own_key sql = true →
  RetryCounter.get (RetryCounter.set sql n m) sql = Some n.
Proof.
  intros Hk. unfold RetryCounter.get, RetryCounter.set. rewrite Hk.
  apply lookup_insert_eq.
Qed.

Lemma counter_get_set_not_own m sql n :
  RetryCounter.own_key sql = false →
  RetryCounter.get (RetryCounter.set sql n m) sql = None.
Proof.
  intros Hk. unfold RetryCounter.get, RetryCounter.set. by rewrite Hk.
Qed.

Lemma prepare_attempt_recurse sql w w1 :
  prepare_attempt native sql w = (Return Recurse, w1) →
  ∃ db ex c,
    sqlite (self w) = Some db ∧
    preparedStatements (self w) !! sql = None ∧
    native_prepare native (history w) db sql = CompileThrows ex ∧
    RetryCounter.get (retryCounter (self w)) sql = Some c ∧ c < 5 ∧
    RetryCounter.own_key sql = true ∧
    w1 = mkWorld (counted sql (c + 1) (self w))
           (history w ++
              [EvPrepare db sql; EvConsoleError [LogThrown ex];
               EvConsoleWarn [LogText "Failed to prepare statement. Retrying:";
                              LogText sql]]).
Proof.
  intros H.
  destruct (sqlite (self w)) as [db|] eqn:Hs;
    [|by rewrite prepare_attempt_closed in H].
  destruct (preparedStatements (self w) !! sql) as [cached|] eqn:Hc;
    [by rewrite (prepare_attempt_cached _ _ db cached) in H|].
  destruct (native_prepare native (history w) db sql) as [ex| |prepared] eqn:Hn;
    [|by rewrite (prepare_attempt_falsy _ _ db) in H
     |by rewrite (prepare_attempt_compiled _ _ db prepared) in H].
  destruct (RetryCounter.lt (RetryCounter.get (retryCounter (self w)) sql) 5) eqn:Hlt;
    [|by rewrite (prepare_attempt_give_up _ _ db ex) in H].
  rewrite (prepare_attempt_retry _ _ db ex) in H by done.
  destruct (counter_lt_inv _ _ Hlt) as (c & Hget & Hc5 & Hown).
  exists db, ex, c. rewrite Hget in H. simpl in H.
  by inversion H.
Qed.

Lemma prepare_attempt_budget sql w w1 :
  prepare_attempt native sql w = (Return Recurse, w1) →
  budget sql w1 < budget sql w.
Proof.
  intros (db & ex & c & _ & _ & _ & Hget & Hc5 & Hown & ->)%prepare_attempt_recurse.
  unfold budget. simpl. rewrite Hget, counter_get_set by done. lia.
Qed.

Lemma budget_le sql w : budget sql w ≤ 5.
Proof. unfold budget. destruct (RetryCounter.get _ _); lia. Qed.

Lemma prepare_fuel_some sql n : ∀ w,
  budget sql w < n → is_Some (prepare_fuel native n sql w).
Proof.
  induction n as [|n IH]; intros w Hb; [lia|]. simpl.
  destruct (prepare_attempt native sql w) as [[[p|]|ex] w1] eqn:Ha; [by eexists| |by eexists].
  apply IH. apply prepare_attempt_budget in Ha. lia.
Qed.

Lemma prepare_fuel_mono sql n : ∀ m w r,
  prepare_fuel native n sql w = Some r → n ≤ m →
  prepare_fuel native m sql w = Some r.
Proof.
  induction n as [|n IH]; intros m w r Hn Hle; [done|].
  destruct m as [|m]; [lia|]. simpl in *.
  destruct (prepare_attempt native sql w) as [[[p|]|ex] w1]; [done| |done].
  apply IH; [done|lia].
Qed.

Lemma prepare_fuel_S sql n w :
  prepare_fuel native (S n) sql w =
    match prepare_attempt native sql w with
    | (Return (Returned prepared), w1) => Some (Return prepared, w1)
    | (Return Recurse, w1) => prepare_fuel native n sql w1
    | (Throw ex, w1) => Some (Throw ex, w1)
    end.
Proof. reflexivity. Qed.

(** Six activations are always enough. *)
Lemma prepare_fuel_enough sql w :
  is_Some (prepare_fuel native prepare_depth sql w).
Proof.
  apply prepare_fuel_some. pose proof (budget_le sql w). unfold prepare_depth. lia.
Qed.

(** [prepare] satisfies the equation the source is written as. *)
Lemma prepare_unfold sql w :
  prepare native sql w =
    match prepare_attempt native sql w with
    | (Return (Returned prepared), w1) => (Return prepared, w1)
    | (Return Recurse, w1) => prepare native sql w1
    | (Throw ex, w1) => (Throw ex, w1)
    end.
Proof.
  unfold prepare at 1. unfold prepare_depth. rewrite prepare_fuel_S.
  destruct (prepare_attempt native sql w) as [[[p|]|ex] w1] eqn:Ha; [done| |done].
  pose proof (prepare_attempt_budget _ _ _ Ha) as Hb.
  pose proof (budget_le sql w) as Hle.
  destruct (prepare_fuel_some sql 5 w1) as [r Hr]; [lia|].
  rewrite Hr. unfold prepare, prepare_depth.
  by rewrite (prepare_fuel_mono sql 5 6 w1 r Hr) by lia.
Qed.

End PrepareFacts.

(** ** Counting the events of a history *)

Lemma retries_app sql h l : retries sql (h ++ l) = retries sql h + retries sql l.
Proof. unfold retries. by rewrite List.filter_app, length_app. Qed.

Lemma compilations_app sql h l :
  compilations sql (h ++ l) = compilations sql h + compilations sql l.
Proof. unfold compilations. by rewrite List.filter_app, length_app. Qed.

Lemma loads_app h l : loads (h ++ l) = loads h ++ loads l.
Proof. apply List.filter_app. Qed.

Lemma counted_counted sql n m o :
  counted sql n (counted sql m o) = counted sql n o.
Proof.
  unfold counted, set_retryCounter, RetryCounter.set. simpl.
  destruct (RetryCounter.own_key sql); [|done]. by rewrite insert_insert_eq.
Qed.

Section RetryFacts.

Context (native : Native).

(** From a counter that holds [c], a text that never compiles is retried
    [5 - c] times: from 0, five times. *)
Lemma prepare_exhausts_retries sql db : ∀ n w c,
  n = 5 - c →
  sqlite (self w) = Some db →
  preparedStatements (self w) !! sql = None →
  RetryCounter.get (retryCounter (self w)) sql = Some c →
  always_fails native db sql →
  ∃ ex h' w',
    prepare native sql w = (Throw (annotate sql ex), w') ∧
    native_prepare native h' db sql = CompileThrows ex ∧
    self w' = counted sql 0 (self w) ∧
    RetryCounter.get (retryCounter (self w')) sql = Some 0 ∧
    retries sql (history w') = retries sql (history w) + (5 - c) ∧
    compilations sql (history w') = compilations sql (history w) + S (5 - c).
Proof.
  induction n as [|n IH]; intros w c Hn Hs Hc Hget Hfail;
    destruct (Hfail (history w)) as [ex Hex];
    assert (Hown : RetryCounter.own_key sql = true)
      by (unfold RetryCounter.get in Hget; by destruct (RetryCounter.own_key sql)).
  - rewrite prepare_unfold, (prepare_attempt_give_up native sql w db ex); try done.
    + exists ex, (history w), (mkWorld (counted sql 0 (self w))
               (history w ++ [EvPrepare db sql; EvConsoleError [LogThrown ex]])).
      simpl. rewrite counter_get_set, retries_app, compilations_app by done.
      unfold retries, compilations. simpl. rewrite String.eqb_refl. simpl.
      repeat split; try done; lia.
    + rewrite Hget. simpl. apply Nat.ltb_ge. lia.
  - rewrite prepare_unfold, (prepare_attempt_retry native sql w db ex); try done.
    2:{ rewrite Hget. simpl. apply Nat.ltb_lt. lia. }
    rewrite Hget. simpl.
    destruct (IH (mkWorld (counted sql (c + 1) (self w))
                (history w ++
                   [EvPrepare db sql; EvConsoleError [LogThrown ex];
                    EvConsoleWarn [LogText "Failed to prepare statement. Retrying:";
                                   LogText sql]])) (c + 1))
      as (ex' & h' & w' & Hp & Hex' & Hself & Hget' & Hr & Hcomp);
      [lia|done|done|by apply counter_get_set|done|].
    exists ex', h', w'. cbn [self history] in *.
    rewrite Hp, Hself, counted_counted, Hr, Hcomp.
    rewrite retries_app, compilations_app.
    unfold retries, compilations. simpl. rewrite String.eqb_refl. simpl.
    repeat split; try done; try lia.
    rewrite Hself, counted_counted in Hget'. done.
Qed.

End RetryFacts.

Section PrepareInduction.

Context (native : Native).

(** Reasoning along the activations of [prepare]. *)
Lemma prepare_induction sql (P : World → Completion (option Statement) * World → Prop) :
  (∀ w p w1, prepare_attempt native sql w = (Return (Returned p), w1) → P w (Return p, w1)) →
  (∀ w ex w1, prepare_attempt native sql w = (Throw ex, w1) → P w (Throw ex, w1)) →
  (∀ w w1 r, prepare_attempt native sql w = (Return Recurse, w1) → P w1 r → P w r) →
  ∀ w, P w (prepare native sql w).
Proof.
  intros Hret Hthrow Hrec w.
  remember (budget sql w) as b eqn:Hb.
  revert w Hb. induction b as [b IH] using lt_wf_ind. intros w ->.
  rewrite prepare_unfold.
  destruct (prepare_attempt native sql w) as [[[p|]|ex] w1] eqn:Ha.
  - by apply Hret.
  - apply (Hrec w w1); [done|].
    apply (IH (budget sql w1)); [by eapply prepare_attempt_budget|done].
  - by apply Hthrow.
Qed.

(** The ways an activation can end without recursing. *)
Lemma prepare_attempt_returned sql w p w1 :
  prepare_attempt native sql w = (Return (Returned p), w1) →
  ∃ db, sqlite (self w) = Some db ∧
    ((∃ cached, preparedStatements (self w) !! sql = Some cached ∧
                p = Some cached ∧ w1 = w) ∨
     (preparedStatements (self w) !! sql = None ∧
      native_prepare native (history w) db sql = CompileFalsy ∧
      p = None ∧ w1 = mkWorld (self w) (history w ++ [EvPrepare db sql])) ∨
     (∃ prepared, preparedStatements (self w) !! sql = None ∧
      native_prepare native (history w) db sql = Compiled prepared ∧
      p = Some prepared ∧
      w1 = mkWorld (cached_as sql prepared (self w)) (history w ++ [EvPrepare db sql]))).
Proof.
  intros H.
  destruct (sqlite (self w)) as [db|] eqn:Hs;
    [|by rewrite prepare_attempt_closed in H].
  exists db. split; [done|].
  destruct (preparedStatements (self w) !! sql) as [cached|] eqn:Hc.
  { rewrite (prepare_attempt_cached _ _ _ db cached) in H by done.
    inversion H. left. by exists cached. }
  destruct (native_prepare native (history w) db sql) as [ex| |prepared] eqn:Hn.
  - destruct (RetryCounter.lt (RetryCounter.get (retryCounter (self w)) sql) 5) eqn:Hlt.
    + by rewrite (prepare_attempt_retry _ _ _ db ex) in H.
    + by rewrite (prepare_attempt_give_up _ _ _ db ex) in H.
  - rewrite (prepare_attempt_falsy _ _ _ db) in H by done.
    inversion H. right. by left.
  - rewrite (prepare_attempt_compiled _ _ _ db prepared) in H by done.
    inversion H. right. right. by exists prepared.
Qed.

Lemma prepare_attempt_thrown sql w e w1 :
  prepare_attempt native sql w = (Throw e, w1) →
  (sqlite (self w) = None ∧ e = ErrorObj "Database is not initialized." ∧ w1 = w) ∨
  (∃ db ex,
     sqlite (self w) = Some db ∧
     preparedStatements (self w) !! sql = None ∧
     native_prepare native (history w) db sql = CompileThrows ex ∧
     RetryCounter.lt (RetryCounter.get (retryCounter (self w)) sql) 5 = false ∧
     e = annotate sql ex ∧
     w1 = mkWorld (counted sql 0 (self w))
            (history w ++ [EvPrepare db sql; EvConsoleError [LogThrown ex]])).
Proof.
  intros H.
  destruct (sqlite (self w)) as [db|] eqn:Hs.
  2:{ rewrite prepare_attempt_closed in H by done. inversion H. by left. }
  right. exists db.
  destruct (preparedStatements (self w) !! sql) as [cached|] eqn:Hc;
    [by rewrite (prepare_attempt_cached _ _ _ db cached) in H|].
  destruct (native_prepare native (history w) db sql) as [ex| |prepared] eqn:Hn.
  - destruct (RetryCounter.lt (RetryCounter.get (retryCounter (self w)) sql) 5) eqn:Hlt.
    + by rewrite (prepare_attempt_retry _ _ _ db ex) in H.
    + rewrite (prepare_attempt_give_up _ _ _ db ex) in H by done.
      inversion H. by exists ex.
  - by rewrite (prepare_attempt_falsy _ _ _ db) in H.
  - by rewrite (prepare_attempt_compiled _ _ _ db prepared) in H.
Qed.

Lemma prepare_frame_refl w : prepare_frame w w.
Proof. repeat split. exists []. by rewrite app_nil_r. Qed.

Lemma prepare_frame_trans w1 w2 w3 :
  prepare_frame w1 w2 → prepare_frame w2 w3 → prepare_frame w1 w3.
Proof.
  intros (Hs & Hi & He & a & Ha & Hl) (Hs' & Hi' & He' & a' & Ha' & Hl').
  repeat split; try congruence.
  exists (a ++ a'). rewrite Ha', Ha, <- app_assoc, loads_app, Hl, Hl'. done.
Qed.

Lemma prepare_keeps_frame sql w : prepare_frame w (snd (prepare native sql w)).
Proof.
  apply (prepare_induction sql (λ w r, prepare_frame w (snd r))); clear w.
  - intros w p w1 (db & Hs & [(c & _ & _ & ->)|[(_ & _ & _ & ->)|(q & _ & _ & _ & ->)]])
      %prepare_attempt_returned; simpl.
    + apply prepare_frame_refl.
    + repeat split. by eexists.
    + repeat split. by eexists.
  - intros w ex w1 [(_ & _ & ->)|(db & e & _ & _ & _ & _ & _ & ->)]%prepare_attempt_thrown;
      simpl.
    + apply prepare_frame_refl.
    + repeat split. by eexists.
  - intros w w1 r (db & ex & c & _ & _ & _ & _ & _ & _ & ->)%prepare_attempt_recurse Hr.
    eapply prepare_frame_trans; [|exact Hr]. repeat split. by eexists.
Qed.

End PrepareInduction.

(** ** [BigInt] *)

Lemma BigInt_exact toString n z : BigInt toString n = inr z → integer_of n z.
Proof.
  destruct n as [| |q]; simpl; try done.
  unfold is_integer. destruct (Z.eqb_spec (Qnum q mod Z.pos (Qden q)) 0) as [Hm|]; [|done].
  intros [= <-]. unfold Qeq, inject_Z. simpl.
  rewrite Z.mul_1_r, Z.mul_comm. symmetry. by apply Z_div_exact_full_2.
Qed.

Lemma BigInt_inject_Z toString z : BigInt toString (Finite (inject_Z z)) = inr z.
Proof.
  unfold BigInt, is_integer, inject_Z. simpl.
  by rewrite Z.mod_1_r, Z.div_1_r.
Qed.

Section ExecFacts.

Context (native : Native).

(** ** The readiness probe *)

Lemma isDatabaseReady_closed w :
  sqlite (self w) = None → isDatabaseReady native w = (Return false, w).
Proof. intros Hs. unfold isDatabaseReady. unfold_m. by rewrite Hs. Qed.

(** The probe never throws and never touches the object; it adds its own
    compilation and run to the history, and says [true] only when both
    went through. *)
Lemma isDatabaseReady_spec w :
  ∃ b added,
    isDatabaseReady native w = (Return b, mkWorld (self w) (history w ++ added)) ∧
    loads added = [] ∧
    (b = true →
     ∃ db probe info,
       sqlite (self w) = Some db ∧
       native_prepare native (history w) db "SELECT 1;" = Compiled probe ∧
       native_run native (history w ++ [EvPrepare db "SELECT 1;"]) probe [] = inr info ∧
       added = [EvPrepare db "SELECT 1;"; EvRun probe []]).
Proof.
  destruct (sqlite (self w)) as [db|] eqn:Hs.
  2:{ exists false, []. rewrite isDatabaseReady_closed, app_nil_r by done.
      by destruct w. }
  unfold isDatabaseReady. unfold_m. rewrite Hs. simpl.
  destruct (native_prepare native (history w) db "SELECT 1;") as [ex| |probe] eqn:Hn.
  - by exists false, [EvPrepare db "SELECT 1;"].
  - by exists false, [EvPrepare db "SELECT 1;"].
  - simpl.
    destruct (native_run native (history w ++ [EvPrepare db "SELECT 1;"]) probe [])
      as [ex|info] eqn:Hr.
    + exists false, [EvPrepare db "SELECT 1;"; EvRun probe []]. by rewrite app_two.
    + exists true, [EvPrepare db "SELECT 1;"; EvRun probe []]. rewrite app_two.
      repeat split. intros _. by exists db, probe, info.
Qed.

(** ** The [finally] block *)

Lemma load_extensions_loaded w :
  extensionsLoaded (self w) = true →
  load_extensions_when_ready native w = (Return tt, w).
Proof. intros He. unfold load_extensions_when_ready. unfold_m. by rewrite He. Qed.

Lemma load_extensions_pending w b w1 :
  extensionsLoaded (self w) = false →
  isDatabaseReady native w = (Return b, w1) →
  load_extensions_when_ready native w =
    (Return tt,
     if b then mkWorld (set_extensionsLoaded true (self w1))
                 (history w1 ++ extension_loads (sqlite (self w1)))
     else w1).
Proof.
  intros He Hp. unfold load_extensions_when_ready. unfold_m. rewrite He, Hp.
  destruct b; [|done]. simpl. by rewrite app_two.
Qed.

Lemma load_extensions_returns w :
  ∃ w1, load_extensions_when_ready native w = (Return tt, w1).
Proof.
  destruct (extensionsLoaded (self w)) eqn:He.
  - eexists. by apply load_extensions_loaded.
  - destruct (isDatabaseReady_spec w) as (b & added & Hp & _).
    eexists. by apply load_extensions_pending.
Qed.

(** ** The [try] block *)

Lemma execute_world prepared parameters w :
  snd (execute native prepared parameters w) =
    mkWorld (self w) (history w ++ [execution_event prepared parameters]).
Proof.
  unfold execute, execution_event. unfold_m. destruct (reader prepared); simpl.
  - by destruct (native_all native (history w) prepared parameters).
  - destruct (native_run native (history w) prepared parameters) as [ex|[c i]]; [done|].
    simpl.
    destruct c as [| |[| |q]]; simpl; try destruct (is_integer q); simpl;
      destruct i as [| |[[| |q']|z']]; simpl; try destruct (is_integer q'); done.
Qed.

(** [exec], with the three outcomes of [prepare] spelled out. *)
Lemma exec_unfold sql parameters w :
  exec native sql parameters w =
    match prepare native sql w with
    | (Return None, w1) => (Return (mkQueryResult [] None None), w1)
    | (Return (Some prepared), w1) =>
        let '(c, w2) :=
          try_catch (execute native prepared parameters) (λ e, throw (annotate sql e)) w1 in
        (c, snd (load_extensions_when_ready native w2))
    | (Throw e, w1) => (Throw e, w1)
    end.
Proof.
  unfold exec, bind at 1.
  destruct (prepare native sql w) as [[[prepared|]|e] w1]; try done.
  unfold try_finally.
  destruct (try_catch _ _ w1) as [c w2].
  by destruct (load_extensions_returns w2) as [w3 ->].
Qed.

End ExecFacts.

Section ExecuteFacts.

Context (native : Native).

Lemma execute_reader prepared parameters w r w2 :
  reader prepared = true →
  execute native prepared parameters w = (Return r, w2) →
  native_all native (history w) prepared parameters = inr (rows r) ∧
  numAffectedRows r = None ∧ insertId r = None.
Proof.
  intros Hr. unfold execute. unfold_m. rewrite Hr. simpl.
  destruct (native_all native (history w) prepared parameters); [done|].
  by intros [= <- _].
Qed.

Lemma execute_writer prepared parameters w r w2 :
  reader prepared = false →
  execute native prepared parameters w = (Return r, w2) →
  ∃ info,
    native_run native (history w) prepared parameters = inr info ∧
    rows r = [] ∧ affected_matches info r ∧ insert_id_matches info r.
Proof.
  intros Hr. unfold execute. unfold_m. rewrite Hr. simpl.
  destruct (native_run native (history w) prepared parameters) as [ex|info]; [done|].
  intros H. exists info. split; [done|].
  unfold affected_matches, insert_id_matches, reported_count.
  destruct info as [c i]. simpl in *.
  assert (Hint : ∀ n z, BigInt (native_toString native) n = inr z → integer_of n z)
    by apply BigInt_exact.
  destruct c as [| |n]; simpl in H.
  3: destruct (isNaN n) eqn:Hnan; simpl in H.
  4: destruct (BigInt (native_toString native) n) as [ex|z] eqn:Hb; simpl in H; [done|].
  all: destruct i as [| |[n'|z']]; simpl in H;
    try (destruct (BigInt (native_toString native) n') as [ex'|z''] eqn:Hb'; simpl in H;
         [done|]);
    injection H as <- _; simpl;
    repeat split; try done; try (by intros [? [=]]); try (by intros []);
    try (by intros ? [=]); try (by eexists; split; [done|apply Hint]);
    try (by intros ? [= <-]; eexists; split; [done|apply Hint]);
    try (by rewrite Hnan).
Qed.

(** A writer whose engine reports integers (or nothing) always gets its
    result: the conversions cannot throw. *)
Lemma execute_writer_returns prepared parameters w info :
  reader prepared = false →
  native_run native (history w) prepared parameters = inr info →
  (∀ n, changes info = Defined n → n = NaN ∨ ∃ z, n = Finite (inject_Z z)) →
  (∀ n, lastInsertRowid info = Defined (RowNumber n) → ∃ z, n = Finite (inject_Z z)) →
  ∃ r, execute native prepared parameters w =
         (Return r, mkWorld (self w) (history w ++ [EvRun prepared parameters])).
Proof.
  intros Hr Hrun Hc Hi. unfold execute. unfold_m. rewrite Hr. simpl. rewrite Hrun.
  destruct info as [c i]. simpl in *.
  assert (Hc' : ∃ a, (match c with
                      | Defined c0 =>
                          if isNaN c0 then λ w, (Return None, w)
                          else match BigInt (native_toString native) c0 with
                               | inl ex => λ w, (Throw ex, w)
                               | inr z => λ w, (Return (Some z), w)
                               end
                      | _ => λ w, (Return None, w)
                      end : M (option Z)) = (λ w, (Return a, w))).
  { destruct c as [| |n]; [by eexists|by eexists|].
    destruct (Hc n eq_refl) as [->|[z ->]]; [by eexists|].
    simpl isNaN. cbv iota. rewrite BigInt_inject_Z. by eexists. }
  destruct Hc' as [a ->].
  destruct i as [| |[n|z]]; simpl; try (by eexists).
  destruct (Hi n eq_refl) as [z ->]. rewrite BigInt_inject_Z. by eexists.
Qed.

(** The [catch] of [exec] passes results through and annotates what is
    thrown. *)
Lemma guarded_execute_returns sql prepared parameters w r w2 :
  try_catch (execute native prepared parameters) (λ e, throw (annotate sql e)) w
    = (Return r, w2) →
  execute native prepared parameters w = (Return r, w2).
Proof.
  unfold try_catch, throw.
  by destruct (execute native prepared parameters w) as [[r'|ex] w'].
Qed.

Lemma guarded_execute_throws sql prepared parameters w e w2 :
  try_catch (execute native prepared parameters) (λ e, throw (annotate sql e)) w
    = (Throw e, w2) →
  ∃ ex, execute native prepared parameters w = (Throw ex, w2) ∧ e = annotate sql ex.
Proof.
  unfold try_catch, throw.
  destruct (execute native prepared parameters w) as [[r'|ex] w']; [done|].
  intros [= <- <-]. by exists ex.
Qed.

Lemma annotate_carries_query sql ex : carries_query sql (annotate sql ex).
Proof. destruct ex; simpl; [by eexists|done]. Qed.

End ExecuteFacts.

(** ** Opening twice *)

(** C7.  In every state in which a handle is open, [open] returns normally
    (it does not throw) and the object is left exactly as it was: the handle,
    the statement cache, the retry counters and the extension flag.  The call
    makes no native call; its one effect is the line it writes to the error
    console. *)
Theorem open_on_open_handle_is_noop native filePath w db :
  sqlite (self w) = Some db →
  open native filePath w =
    (Return tt,
     mkWorld (self w)
       (history w ++ [EvConsoleError [LogText "Database is already initialized"]])).
Proof.
  intros Hs. unfold open. unfold_m. by rewrite Hs.
Qed.

Lemma open_on_open_handle_is_noop_witness :
  open (demo_native true) "other.db" (opened_world true) =
    (Return tt,
     mkWorld (self (opened_world true))
       (history (opened_world true) ++
          [EvConsoleError [LogText "Database is already initialized"]])).
Proof.
  apply (open_on_open_handle_is_noop (demo_native true) "other.db" (opened_world true)
           (Handle 1)).
  reflexivity.
Defined.

(** ** The statement cache *)

Section CacheFacts.

Context (native : Native).

(** A statement that [prepare] hands back is in the cache under its text,
    and the handle is still open. *)
Lemma prepare_result_cached sql w :
  ∀ prepared w1,
    prepare native sql w = (Return (Some prepared), w1) →
    (∃ db, sqlite (self w1) = Some db) ∧
    preparedStatements (self w1) !! sql = Some prepared.
Proof.
  apply (prepare_induction native sql
           (λ w r, ∀ prepared w1, r = (Return (Some prepared), w1) →
              (∃ db, sqlite (self w1) = Some db) ∧
              preparedStatements (self w1) !! sql = Some prepared)); clear w.
  - intros w p w1 (db & Hs & Hcase)%prepare_attempt_returned prepared w1' [= -> <-].
    destruct Hcase as [(c & Hc & [= ->] & ->)|[(_ & _ & [=] & _)|(q & _ & _ & [= ->] & ->)]].
    + split; [by exists db|done].
    + split; [by exists db|]. simpl. apply lookup_insert_eq.
  - by intros w ex w1 _ prepared w1'.
  - intros w w1 r _ IH prepared w1' Hr. by apply IH.
Qed.

Lemma prepare_cached sql w db cached :
  sqlite (self w) = Some db →
  preparedStatements (self w) !! sql = Some cached →
  prepare native sql w = (Return (Some cached), w).
Proof.
  intros Hs Hc. by rewrite prepare_unfold, (prepare_attempt_cached native sql w db cached).
Qed.

End CacheFacts.

(** ** The retry bound *)

(** C1.  What the code does where the claim fails: for a text whose counter
    was never written (it was never prepared on this object), a compilation
    that fails is not retried at all.  [undefined < 5] is false, so the first
    failure resets the counter to 0 and surfaces the annotated error after a
    single compilation and no retry.  (From a counter that holds 0 the five
    retries do happen: [prepare_exhausts_retries].) *)
Theorem prepare_new_text_is_not_retried native sql w db :
  sqlite (self w) = Some db →
  preparedStatements (self w) !! sql = None →
  RetryCounter.get (retryCounter (self w)) sql = None →
  always_fails native db sql →
  ∃ ex w',
    prepare native sql w = (Throw (annotate sql ex), w') ∧
    native_prepare native (history w) db sql = CompileThrows ex ∧
    self w' = counted sql 0 (self w) ∧
    retries sql (history w') = retries sql (history w) ∧
    compilations sql (history w') = compilations sql (history w) + 1.
Proof.
  intros Hs Hc Hget Hfail. destruct (Hfail (history w)) as [ex Hex].
  exists ex, (mkWorld (counted sql 0 (self w))
                (history w ++ [EvPrepare db sql; EvConsoleError [LogThrown ex]])).
  rewrite prepare_unfold, (prepare_attempt_give_up native sql w db ex); try done.
  2:{ by rewrite Hget. }
  simpl. rewrite retries_app, compilations_app. unfold retries, compilations. simpl.
  rewrite String.eqb_refl. simpl. repeat split; try done; lia.
Qed.

Lemma prepare_new_text_is_not_retried_witness :
  let native := demo_native false in
  let w := opened_world false in
  ∃ ex w',
    prepare native "SELEC 1" w = (Throw (annotate "SELEC 1" ex), w') ∧
    native_prepare native (history w) (Handle 1) "SELEC 1" = CompileThrows ex ∧
    self w' = counted "SELEC 1" 0 (self w) ∧
    retries "SELEC 1" (history w') = retries "SELEC 1" (history w) ∧
    compilations "SELEC 1" (history w') = compilations "SELEC 1" (history w) + 1.
Proof.
  apply (prepare_new_text_is_not_retried (demo_native false) "SELEC 1"
           (opened_world false) (Handle 1)).
  - reflexivity.
  - reflexivity.
  - reflexivity.
  - intros h. eexists. reflexivity.
Defined.

(** The same text, prepared once more after that first failure, is retried
    five times: the counter now holds 0. *)
Example prepare_second_failure_is_retried :
  let native := demo_native false in
  let w := snd (prepare native "SELEC 1" (opened_world false)) in
  let w' := snd (prepare native "SELEC 1" w) in
  retries "SELEC 1" (history (opened_world false)) = 0 ∧
  retries "SELEC 1" (history w) = 0 ∧
  retries "SELEC 1" (history w') = 5 ∧
  compilations "SELEC 1" (history w') = 7.
Proof. vm_compute. done. Qed.

(** ** Annotated errors *)

Section ErrorFacts.

Context (native : Native).

Lemma prepare_throws_annotated sql w :
  ∀ db e w',
    sqlite (self w) = Some db →
    prepare native sql w = (Throw e, w') →
    ∃ ex h, native_prepare native h db sql = CompileThrows ex ∧ e = annotate sql ex.
Proof.
  apply (prepare_induction native sql
           (λ w r, ∀ db e w', sqlite (self w) = Some db → r = (Throw e, w') →
              ∃ ex h, native_prepare native h db sql = CompileThrows ex ∧
                      e = annotate sql ex)); clear w.
  - by intros w p w1 _ db e w' _.
  - intros w ex w1 [(Hs & _)|(db' & ex' & Hs & _ & Hn & _ & -> & _)]%prepare_attempt_thrown
      db e w' Hdb [= <- _]; [congruence|].
    exists ex', (history w). split; [congruence|done].
  - intros w w1 r (db' & ex & c & Hs & _ & _ & _ & _ & _ & ->)%prepare_attempt_recurse
      IH db e w' Hdb Hr.
    by apply (IH db e w').
Qed.

Lemma exec_throws_annotated sql parameters w db e w' :
  sqlite (self w) = Some db →
  exec native sql parameters w = (Throw e, w') →
  ∃ ex, e = annotate sql ex.
Proof.
  intros Hs. rewrite exec_unfold.
  destruct (prepare native sql w) as [[[prepared|]|e1] w1] eqn:Hp.
  - destruct (try_catch _ _ w1) as [c w2] eqn:Ht. intros [= -> _].
    apply guarded_execute_throws in Ht as (ex & _ & ->). by exists ex.
  - done.
  - intros [= <- _].
    destruct (prepare_throws_annotated sql w db e1 w1 Hs Hp) as (ex & _ & _ & ->).
    by exists ex.
Qed.

End ErrorFacts.

(** Both kinds of failure, run: a text that does not compile, and a statement
    that compiles and then fails with the parameters it is given. *)
Example annotated_errors_run :
  let native := demo_native false in
  fst (prepare native "SELEC 1" (opened_world false))
    = Throw (ErrorObj "syntax error (query: SELEC 1)") ∧
  fst (exec native "INSERT INTO notes (id) VALUES (?);" [PNull; PNull] (opened_world false))
    = Throw (ErrorObj
        "Too many parameter values were provided (query: INSERT INTO notes (id) VALUES (?);)") ∧
  fst (exec native "INSERT INTO notes (id) VALUES (?);" [PNumber (Finite (1 # 2))]
         (opened_world false))
    = Throw (ErrorObj ("The number 0.5 cannot be converted to a BigInt because it is " +:+
                       "not an integer (query: INSERT INTO notes (id) VALUES (?);)")).
Proof. vm_compute. done. Qed.

(** ** The shape of a result *)

Section ResultFacts.

Context (native : Native).

(** A result of [exec] for a statement that [prepare] handed back is the
    result of the [try] block, run in the world [prepare] left. *)
Lemma exec_returns_execute sql parameters w prepared w1 r w' :
  prepare native sql w = (Return (Some prepared), w1) →
  exec native sql parameters w = (Return r, w') →
  ∃ w2, execute native prepared parameters w1 = (Return r, w2).
Proof.
  intros Hp. rewrite exec_unfold, Hp.
  destruct (try_catch _ _ w1) as [c w2] eqn:Ht. intros [= -> _].
  exists w2. by eapply guarded_execute_returns.
Qed.

End ResultFacts.

(** C5.  For every [exec] that returns a result for a compiled statement:
    if the statement is a reader, the rows of the result are exactly the rows
    the engine produced, and there is neither an affected count nor an insert
    id; if it is a writer, there are no rows, and the affected count is
    present exactly when the engine reported a change count that is defined
    and not [NaN], in which case it is that count as an integer. *)
Theorem exec_result_shape native sql parameters w prepared w1 r w' :
  prepare native sql w = (Return (Some prepared), w1) →
  exec native sql parameters w = (Return r, w') →
  if reader prepared then
    native_all native (history w1) prepared parameters = inr (rows r) ∧
    numAffectedRows r = None ∧ insertId r = None
  else
    ∃ info,
      native_run native (history w1) prepared parameters = inr info ∧
      rows r = [] ∧
      (is_Some (numAffectedRows r) ↔ reported_count (changes info)) ∧
      (∀ z, numAffectedRows r = Some z → ∃ n, changes info = Defined n ∧ integer_of n z).
Proof.
  intros Hp He.
  destruct (exec_returns_execute native sql parameters w prepared w1 r w' Hp He) as [w2 Hx].
  destruct (reader prepared) eqn:Hr.
  - by eapply execute_reader.
  - destruct (execute_writer native prepared parameters w1 r w2 Hr Hx)
      as (info & Hrun & Hrows & [Haff Hval] & _).
    by exists info.
Qed.

Lemma exec_result_shape_witness :
  let native := demo_native false in
  let sql := "INSERT INTO notes (id) VALUES (?);" in
  let parameters := [PBigint 41] in
  let w := opened_world false in
  let prepared := mkStatement 2 sql false in
  let w1 := snd (prepare native sql w) in
  let r := mkQueryResult [] (Some 1%Z) (Some 41%Z) in
  ∃ info,
    native_run native (history w1) prepared parameters = inr info ∧
    rows r = [] ∧
    (is_Some (numAffectedRows r) ↔ reported_count (changes info)) ∧
    (∀ z, numAffectedRows r = Some z → ∃ n, changes info = Defined n ∧ integer_of n z).
Proof.
  apply (exec_result_shape (demo_native false) "INSERT INTO notes (id) VALUES (?);"
           [PBigint 41] (opened_world false)
           (mkStatement 2 "INSERT INTO notes (id) VALUES (?);" false)
           (snd (prepare (demo_native false) "INSERT INTO notes (id) VALUES (?);"
                   (opened_world false)))
           (mkQueryResult [] (Some 1%Z) (Some 41%Z))
           (snd (exec (demo_native false) "INSERT INTO notes (id) VALUES (?);"
                   [PBigint 41] (opened_world false)))).
  - vm_compute. reflexivity.
  - vm_compute. reflexivity.
Defined.

(** A reader and a writer, run. *)
Example exec_results_run :
  let native := demo_native false in
  fst (exec native "SELECT id FROM notes;" [] (opened_world false))
    = Return (mkQueryResult
                [[("id", PNumber (Finite 1))]; [("id", PNumber (Finite 2))]] None None) ∧
  fst (exec native "INSERT INTO notes (id) VALUES (?);" [PNumber (Finite 7)]
         (opened_world false))
    = Return (mkQueryResult [] (Some 1%Z) (Some 7%Z)) ∧
  fst (exec native "INSERT INTO notes (id) VALUES (?);" [] (opened_world false))
    = Return (mkQueryResult [] (Some 0%Z) None).
Proof. vm_compute. done. Qed.

(** C6.  For every writer whose execution returns a result: when the engine
    reported a last inserted row id, the insert id of the result is that id as
    an integer, the same integer whether the engine handed it over as a
    [number] or as a [bigint]; when the engine reported none ([undefined] or
    [null]), the result has no insert id. *)
Theorem exec_insert_id native sql parameters w prepared w1 info r w' :
  prepare native sql w = (Return (Some prepared), w1) →
  reader prepared = false →
  native_run native (history w1) prepared parameters = inr info →
  exec native sql parameters w = (Return r, w') →
  match lastInsertRowid info with
  | Defined (RowBigint z) => insertId r = Some z
  | Defined (RowNumber n) => ∃ z, insertId r = Some z ∧ integer_of n z
  | _ => insertId r = None
  end ∧
  (∀ z, lastInsertRowid info = Defined (RowNumber (Finite (inject_Z z))) ∨
        lastInsertRowid info = Defined (RowBigint z) →
        insertId r = Some z).
Proof.
  intros Hp Hr Hrun He.
  destruct (exec_returns_execute native sql parameters w prepared w1 r w' Hp He) as [w2 Hx].
  destruct (execute_writer native prepared parameters w1 r w2 Hr Hx)
    as (info' & Hrun' & _ & _ & Hid).
  assert (info' = info) as -> by congruence.
  split; [exact Hid|].
  unfold insert_id_matches in Hid.
  intros z [Hl|Hl]; rewrite Hl in Hid; [|done].
  destruct Hid as (z' & -> & Hz). simpl in Hz.
  unfold Qeq, inject_Z in Hz. simpl in Hz. f_equal. lia.
Qed.

Lemma exec_insert_id_witness :
  let r := mkQueryResult [] (Some 1%Z) (Some 7%Z) in
  let info := mkRunResult (Defined (Finite 1)) (Defined (RowNumber (Finite 7))) in
  match lastInsertRowid info with
  | Defined (RowBigint z) => insertId r = Some z
  | Defined (RowNumber n) => ∃ z, insertId r = Some z ∧ integer_of n z
  | _ => insertId r = None
  end ∧
  (∀ z, lastInsertRowid info = Defined (RowNumber (Finite (inject_Z z))) ∨
        lastInsertRowid info = Defined (RowBigint z) →
        insertId r = Some z).
Proof.
  apply (exec_insert_id (demo_native false) "INSERT INTO notes (id) VALUES (?);"
           [PNumber (Finite 7)] (opened_world false)
           (mkStatement 2 "INSERT INTO notes (id) VALUES (?);" false)
           (snd (prepare (demo_native false) "INSERT INTO notes (id) VALUES (?);"
                   (opened_world false)))
           (mkRunResult (Defined (Finite 1)) (Defined (RowNumber (Finite 7))))
           (mkQueryResult [] (Some 1%Z) (Some 7%Z))
           (snd (exec (demo_native false) "INSERT INTO notes (id) VALUES (?);"
                   [PNumber (Finite 7)] (opened_world false)))).
  - vm_compute. reflexivity.
  - reflexivity.
  - vm_compute. reflexivity.
  - vm_compute. reflexivity.
Defined.

(** ** Loading the extensions *)

Lemma quiet_refl w : quiet w w.
Proof. done. Qed.

Lemma quiet_trans w1 w2 w3 : quiet w1 w2 → quiet w2 w3 → quiet w1 w3.
Proof. intros [? ?] [? ?]. split; congruence. Qed.

Lemma quiet_flipped w1 w2 w3 : quiet w1 w2 → flipped w2 w3 → flipped w1 w3.
Proof.
  intros [He Hl] (Hf & Ht & db & Hd). repeat split; [congruence|done|].
  exists db. congruence.
Qed.

Lemma prepare_frame_quiet w w' : prepare_frame w w' → quiet w w'.
Proof.
  intros (_ & _ & He & added & Ha & Hl). split; [done|].
  by rewrite Ha, loads_app, Hl, app_nil_r.
Qed.

(** A step that keeps the object and adds events that are not loads. *)
Lemma quiet_events w evs (o : SQLite) :
  extensionsLoaded o = extensionsLoaded (self w) →
  loads evs = [] →
  quiet w (mkWorld o (history w ++ evs)).
Proof.
  intros He Hl. split; [done|]. simpl. by rewrite loads_app, Hl, app_nil_r.
Qed.

Section LoadFacts.

Context (native : Native).

Lemma guarded_execute_world sql prepared parameters w :
  snd (try_catch (execute native prepared parameters) (λ e, throw (annotate sql e)) w) =
    snd (execute native prepared parameters w).
Proof.
  unfold try_catch, throw.
  by destruct (execute native prepared parameters w) as [[r|ex] w'].
Qed.

Lemma execute_quiet prepared parameters w :
  quiet w (snd (execute native prepared parameters w)).
Proof.
  rewrite execute_world. apply quiet_events; [done|].
  unfold execution_event. by destruct (reader prepared).
Qed.

(** The [finally] block, by what the probe says. *)
Lemma load_extensions_step w :
  let w' := snd (load_extensions_when_ready native w) in
  if extensionsLoaded (self w) then w' = w
  else match fst (isDatabaseReady native w) with
       | Return true => flipped w w'
       | _ => quiet w w'
       end.
Proof.
  simpl. destruct (extensionsLoaded (self w)) eqn:He.
  { by rewrite load_extensions_loaded. }
  destruct (isDatabaseReady_spec native w) as (b & added & Hp & Hl & Hb).
  rewrite (load_extensions_pending native w b _ He Hp), Hp. simpl.
  destruct b.
  - destruct (Hb eq_refl) as (db & probe & info & Hs & _ & _ & _).
    repeat split; [done|]. exists db. simpl.
    by rewrite !loads_app, Hl, app_nil_r, Hs.
  - by apply quiet_events.
Qed.

(** [exec], by what the probe says when it runs in the call. *)
Lemma exec_step sql parameters w :
  let w' := snd (exec native sql parameters w) in
  match probe_in_exec native sql parameters w with
  | Some true => flipped w w'
  | _ => quiet w w'
  end.
Proof.
  simpl. unfold probe_in_exec. rewrite exec_unfold.
  pose proof (prepare_keeps_frame native sql w) as Hf%prepare_frame_quiet.
  destruct (prepare native sql w) as [[[prepared|]|e] w1]; simpl in *; try done.
  pose proof (guarded_execute_world sql prepared parameters w1) as Hw.
  destruct (try_catch _ _ w1) as [c w2]. simpl in *. subst w2.
  pose proof (execute_quiet prepared parameters w1) as Hx.
  pose proof (load_extensions_step (snd (execute native prepared parameters w1))) as Hl.
  simpl in Hl.
  destruct (extensionsLoaded (self (snd (execute native prepared parameters w1)))).
  { rewrite Hl. by eapply quiet_trans. }
  destruct (fst (isDatabaseReady native _)) as [[|]|ex].
  - eapply quiet_flipped; [|exact Hl]. by eapply quiet_trans.
  - eapply quiet_trans; [|exact Hl]. by eapply quiet_trans.
  - eapply quiet_trans; [|exact Hl]. by eapply quiet_trans.
Qed.

Lemma probe_in_exec_loaded sql parameters w :
  extensionsLoaded (self w) = true → probe_in_exec native sql parameters w = None.
Proof.
  intros He. unfold probe_in_exec.
  pose proof (prepare_keeps_frame native sql w) as [Hf _]%prepare_frame_quiet.
  destruct (prepare native sql w) as [[[prepared|]|e] w1]; simpl in *; try done.
  destruct (execute_quiet prepared parameters w1) as [Hx _].
  by rewrite Hx, Hf, He.
Qed.

Lemma open_quiet filePath w : quiet w (snd (open native filePath w)).
Proof.
  unfold open. unfold_m. destruct (sqlite (self w)); simpl.
  - by apply quiet_events.
  - destruct (native_open native (history w) filePath); simpl; by apply quiet_events.
Qed.

Lemma close_quiet w : quiet w (snd (close w)).
Proof.
  unfold close. unfold_m. destruct (sqlite (self w)); simpl; [|done].
  by apply quiet_events.
Qed.

Lemma rm_attempts_quiet filePath options n : ∀ w,
  quiet w (snd (rm_attempts native n filePath options w)).
Proof.
  induction n as [|n IH]; intros w; simpl;
    destruct (native_unlink native (history w) filePath (force options));
    try (by apply quiet_events).
  eapply quiet_trans; [|apply IH]. simpl.
  rewrite app_two. by apply quiet_events.
Qed.

Lemma delete_quiet filePath w : quiet w (snd (delete native filePath w)).
Proof.
  unfold delete, bind.
  pose proof (close_quiet w) as Hc.
  destruct (close w) as [[[]|e] w1]; simpl in *; [|done].
  eapply quiet_trans; [exact Hc|]. apply rm_attempts_quiet.
Qed.

Lemma run_step sql parameters w :
  let w' := snd (run native sql parameters w) in quiet w w' ∨ flipped w w'.
Proof.
  simpl. unfold run. unfold_m. destruct (sqlite (self w)); [|by left].
  pose proof (exec_step sql (default [] parameters) w) as H. simpl in H.
  destruct (probe_in_exec _ _ _ _) as [[|]|]; auto.
Qed.

(** Every call is quiet, except for the one that raises the flag. *)
Lemma call_step c w : quiet w (call native c w) ∨ flipped w (call native c w).
Proof.
  destruct c as [filePath|sql|sql parameters|sql parameters| |filePath]; simpl.
  - left. apply open_quiet.
  - left. apply prepare_frame_quiet, prepare_keeps_frame.
  - pose proof (exec_step sql parameters w) as H. simpl in H.
    destruct (probe_in_exec _ _ _ _) as [[|]|]; auto.
  - apply run_step.
  - left. apply close_quiet.
  - left. apply delete_quiet.
Qed.

Lemma calls_cons c cs w : calls native (c :: cs) w = calls native cs (call native c w).
Proof. reflexivity. Qed.

(** Once the flag is up, no sequence of calls moves it or loads anything. *)
Lemma calls_loaded cs : ∀ w,
  extensionsLoaded (self w) = true → quiet w (calls native cs w).
Proof.
  induction cs as [|c cs IH]; intros w He; [done|].
  rewrite calls_cons.
  destruct (call_step c w) as [Hq|(Hf & _)]; [|congruence].
  eapply quiet_trans; [exact Hq|]. apply IH. destruct Hq as [-> _]. done.
Qed.

(** Over any sequence of calls the flag is raised at most once. *)
Lemma calls_step cs : ∀ w,
  quiet w (calls native cs w) ∨ flipped w (calls native cs w).
Proof.
  induction cs as [|c cs IH]; intros w; [by left|].
  rewrite calls_cons.
  destruct (call_step c w) as [Hq|Hf].
  - destruct (IH (call native c w)) as [Hq'|Hf'].
    + left. by eapply quiet_trans.
    + right. by eapply quiet_flipped.
  - right. destruct Hf as (Hf & Ht & db & Hd).
    destruct (calls_loaded cs (call native c w) Ht) as [He Hl].
    repeat split; [done|congruence|]. exists db. congruence.
Qed.

End LoadFacts.

Section ProbeFacts.

Context (native : Native).

Lemma exec_spec_unfold sql parameters w :
  exec_spec native sql parameters w =
    match prepare native sql w with
    | (Return None, w1) =>
        (Return (mkQueryResult [] None None), snd (load_extensions_when_ready native w1))
    | (Return (Some prepared), w1) =>
        let '(c, w2) :=
          try_catch (execute native prepared parameters) (λ e, throw (annotate sql e)) w1 in
        (c, snd (load_extensions_when_ready native w2))
    | (Throw e, w1) => (Throw e, snd (load_extensions_when_ready native w1))
    end.
Proof.
  unfold exec_spec, try_finally, bind.
  destruct (prepare native sql w) as [[[prepared|]|e] w1].
  - destruct (try_catch _ _ w1) as [c w2].
    by destruct (load_extensions_returns native w2) as [w3 ->].
  - unfold ret. by destruct (load_extensions_returns native w1) as [w3 ->].
  - by destruct (load_extensions_returns native w1) as [w3 ->].
Qed.

End ProbeFacts.

(** C2, as the code has it.  The probe-and-load step guards the execution,
    not the preparation.  For every call of [exec] whose [prepare] hands back
    a statement while the flag is down: however the execution ends (with a
    result or with a thrown error), the readiness probe runs after it; if the
    probe reports the database queryable, both extensions are loaded into the
    open handle, trigram first, and the flag is raised; if not, nothing is
    loaded.  On these calls [exec] is what the specification describes. *)
Theorem exec_probes_after_execution native sql parameters w prepared w1 :
  prepare native sql w = (Return (Some prepared), w1) →
  extensionsLoaded (self w) = false →
  let w2 := mkWorld (self w1) (history w1 ++ [execution_event prepared parameters]) in
  ∃ c b w3,
    try_catch (execute native prepared parameters) (λ e, throw (annotate sql e)) w1
      = (c, w2) ∧
    isDatabaseReady native w2 = (Return b, w3) ∧
    (b = true → ∃ db, sqlite (self w3) = Some db) ∧
    exec native sql parameters w =
      (c, if b then mkWorld (set_extensionsLoaded true (self w3))
                      (history w3 ++ extension_loads (sqlite (self w3)))
          else w3) ∧
    exec native sql parameters w = exec_spec native sql parameters w.
Proof.
  intros Hp He w2.
  pose proof (prepare_keeps_frame native sql w) as (_ & _ & Hf & _).
  rewrite Hp in Hf. simpl in Hf.
  pose proof (guarded_execute_world native sql prepared parameters w1) as Hw.
  rewrite execute_world in Hw. fold w2 in Hw.
  destruct (try_catch _ _ w1) as [c w2'] eqn:Ht. simpl in Hw. subst w2'.
  destruct (isDatabaseReady_spec native w2) as (b & added & Hb & _ & Hs).
  exists c, b, (mkWorld (self w2) (history w2 ++ added)).
  repeat split; try done.
  - intros ->. destruct (Hs eq_refl) as (db & _ & _ & Hdb & _). by exists db.
  - rewrite exec_unfold, Hp, Ht.
    assert (Hdown : extensionsLoaded (self w2) = false) by (simpl; congruence).
    by rewrite (load_extensions_pending native w2 b _ Hdown Hb).
  - by rewrite exec_unfold, exec_spec_unfold, Hp, Ht.
Qed.

Lemma exec_probes_after_execution_witness :
  let native := demo_native true in
  let sql := "PRAGMA key = 'secret';" in
  let w := opened_world true in
  let prepared := mkStatement 2 sql false in
  let w1 := snd (prepare native sql w) in
  let w2 := mkWorld (self w1) (history w1 ++ [execution_event prepared []]) in
  ∃ c b w3,
    try_catch (execute native prepared []) (λ e, throw (annotate sql e)) w1 = (c, w2) ∧
    isDatabaseReady native w2 = (Return b, w3) ∧
    (b = true → ∃ db, sqlite (self w3) = Some db) ∧
    exec native sql [] w =
      (c, if b then mkWorld (set_extensionsLoaded true (self w3))
                      (history w3 ++ extension_loads (sqlite (self w3)))
          else w3) ∧
    exec native sql [] w = exec_spec native sql [] w.
Proof.
  apply (exec_probes_after_execution (demo_native true) "PRAGMA key = 'secret';" []
           (opened_world true) (mkStatement 2 "PRAGMA key = 'secret';" false)
           (snd (prepare (demo_native true) "PRAGMA key = 'secret';" (opened_world true)))).
  - vm_compute. reflexivity.
  - reflexivity.
Defined.

(** C2, as stated, fails where [prepare] throws: the call exits before the
    [try] that carries the [finally].  Here the database is queryable and the
    flag is down; [exec] of a text that does not compile throws, the probe is
    never run (no compilation of [SELECT 1;] is asked for), nothing is loaded
    and the flag stays down, where the step of the specification would have
    raised it. *)
Lemma exec_failed_prepare_skips_probe :
  let native := demo_native false in
  let w := opened_world false in
  let w' := snd (exec native "SELEC 1" [] w) in
  extensionsLoaded (self w) = false ∧
  fst (exec native "SELEC 1" [] w) = Throw (ErrorObj "syntax error (query: SELEC 1)") ∧
  fst (isDatabaseReady native w') = Return true ∧
  compilations "SELECT 1;" (history w') = 0 ∧
  loads (history w') = [] ∧
  extensionsLoaded (self w') = false ∧
  extensionsLoaded (self (snd (exec_spec native "SELEC 1" [] w))) = true ∧
  exec native "SELEC 1" [] w ≠ exec_spec native "SELEC 1" [] w.
Proof.
  repeat split; try (vm_compute; reflexivity).
  intros H.
  apply (f_equal (λ r, extensionsLoaded (self (snd r)))) in H.
  vm_compute in H. discriminate.
Qed.

(** An encrypted database: two calls before the key is applied, the call that
    applies it, and two calls after it. *)
Example extensions_load_once_run :
  let native := demo_native true in
  let select := CallExec "SELECT id FROM notes;" [] in
  let cipher := CallExec "PRAGMA cipher = 'sqlcipher';" [] in
  let key := CallExec "PRAGMA key = 'secret';" [] in
  let before := calls native [CallOpen "notes.db"; select; cipher] fresh_world in
  let at_key := calls native [CallOpen "notes.db"; select; cipher; key] fresh_world in
  let after := calls native [CallOpen "notes.db"; select; cipher; key; select; cipher]
                 fresh_world in
  probe_in_exec native "SELECT id FROM notes;" [] (opened_world true) = None ∧
  probe_in_exec native "PRAGMA cipher = 'sqlcipher';" [] (opened_world true) = Some false ∧
  probe_in_exec native "PRAGMA key = 'secret';" [] before = Some true ∧
  extensionsLoaded (self before) = false ∧ loads (history before) = [] ∧
  extensionsLoaded (self at_key) = true ∧
  loads (history at_key) = extension_loads (Some (Handle 1)) ∧
  probe_in_exec native "SELECT id FROM notes;" [] at_key = None ∧
  extensionsLoaded (self after) = true ∧
  loads (history after) = extension_loads (Some (Handle 1)).
Proof. vm_compute. done. Qed.

(** ** Closing *)

Lemma close_unfold w :
  close w =
    (Return tt,
     match sqlite (self w) with
     | Some db =>
         mkWorld (mkSQLite None (initialized (self w)) ∅ (retryCounter (self w))
                    (extensionsLoaded (self w)))
           (history w ++ [EvClose db])
     | None => w
     end).
Proof. unfold close. unfold_m. by destruct (sqlite (self w)). Qed.

(** C10.  [close] empties the statement cache and drops the handle, and
    leaves the extension flag and the retry counters as they were.  So when
    the flag is already up, a [close] followed by a reopen and by any further
    calls never loads the extensions again, for the new handle or any other. *)
Theorem close_keeps_flag_and_counters native w :
  close w =
    (Return tt,
     match sqlite (self w) with
     | Some db =>
         mkWorld (mkSQLite None (initialized (self w)) ∅ (retryCounter (self w))
                    (extensionsLoaded (self w)))
           (history w ++ [EvClose db])
     | None => w
     end) ∧
  (extensionsLoaded (self w) = true →
   ∀ filePath cs,
     let w' := calls native (CallClose :: CallOpen filePath :: cs) w in
     extensionsLoaded (self w') = true ∧ loads (history w') = loads (history w)).
Proof.
  split; [apply close_unfold|].
  intros He filePath cs. cbv zeta.
  destruct (calls_loaded native (CallClose :: CallOpen filePath :: cs) w He) as [Hf Hl].
  split; congruence.
Qed.

(** A worker whose extensions were loaded for its first handle is closed and
    reopened: the new handle gets a statement compiled and executed, and no
    load. *)
Example reopened_handle_gets_no_extensions :
  let native := demo_native false in
  let w := calls native [CallOpen "notes.db"; CallExec "SELECT id FROM notes;" []]
             fresh_world in
  let w' := calls native [CallClose; CallOpen "notes.db";
                          CallExec "SELECT id FROM notes;" []] w in
  sqlite (self w) = Some (Handle 1) ∧ extensionsLoaded (self w) = true ∧
  loads (history w) = extension_loads (Some (Handle 1)) ∧
  sqlite (self w') = Some (Handle 9) ∧
  loads (history w') = extension_loads (Some (Handle 1)).
Proof. vm_compute. done. Qed.

(** ** Deleting *)

Lemma rm_pairs_S k filePath options :
  rm_pairs (S k) filePath options =
    [EvUnlink filePath (force options); EvDelay (retryDelay options)]
      ++ rm_pairs k filePath options.
Proof. reflexivity. Qed.

Section DeleteFacts.

Context (native : Native).

(** [rm] makes [k + 1] attempts for some [k] within the retries it was
    given: the first [k] fail and are each followed by the wait; it returns
    when the last one succeeds, and throws only when the last one fails with
    all retries used. *)
Lemma rm_attempts_spec filePath options n : ∀ w,
  ∃ k, k ≤ n ∧
    snd (rm_attempts native n filePath options w) =
      mkWorld (self w)
        (history w ++ rm_pairs k filePath options ++ [EvUnlink filePath (force options)]) ∧
    (∀ i, i < k →
       native_unlink native (history w ++ rm_pairs i filePath options) filePath
         (force options) ≠ None) ∧
    match fst (rm_attempts native n filePath options w) with
    | Return _ =>
        native_unlink native (history w ++ rm_pairs k filePath options) filePath
          (force options) = None
    | Throw e =>
        k = n ∧
        native_unlink native (history w ++ rm_pairs k filePath options) filePath
          (force options) = Some e
    end.
Proof.
  induction n as [|n IH]; intros w; simpl.
  - exists 0. unfold rm_pairs. simpl. rewrite app_nil_r.
    destruct (native_unlink native (history w) filePath (force options)) eqn:Hu; simpl;
      repeat split; try done; intros i Hi; lia.
  - destruct (native_unlink native (history w) filePath (force options)) as [ex|] eqn:Hu.
    + destruct (IH (mkWorld (self w)
                      ((history w ++ [EvUnlink filePath (force options)]) ++
                         [EvDelay (retryDelay options)])))
        as (k & Hk & Hw & Hfail & Hlast).
      simpl in *. rewrite app_two in *.
      exists (S k). rewrite rm_pairs_S. split; [lia|]. split; [|split].
      * rewrite Hw. by rewrite <- !app_assoc.
      * intros [|i] Hi.
        -- unfold rm_pairs. simpl. rewrite app_nil_r, Hu. done.
        -- rewrite rm_pairs_S, app_assoc. apply Hfail. lia.
      * rewrite app_assoc.
        destruct (fst (rm_attempts native n filePath options _)); [done|].
        destruct Hlast as [-> Hlast]. done.
    + exists 0. unfold rm_pairs. simpl. rewrite app_nil_r.
      repeat split; try done; try lia; intros i Hi; lia.
Qed.

(** ** The cache is empty whenever no handle is open *)

Lemma prepare_closed sql w :
  sqlite (self w) = None →
  prepare native sql w = (Throw (ErrorObj "Database is not initialized."), w).
Proof. intros Hs. by rewrite prepare_unfold, prepare_attempt_closed. Qed.

Lemma exec_closed sql parameters w :
  sqlite (self w) = None →
  exec native sql parameters w = (Throw (ErrorObj "Database is not initialized."), w).
Proof. intros Hs. by rewrite exec_unfold, prepare_closed. Qed.

Lemma load_extensions_keeps_handle w :
  sqlite (self (snd (load_extensions_when_ready native w))) = sqlite (self w).
Proof.
  destruct (extensionsLoaded (self w)) eqn:He.
  { by rewrite load_extensions_loaded. }
  destruct (isDatabaseReady_spec native w) as (b & added & Hp & _).
  rewrite (load_extensions_pending native w b _ He Hp). by destruct b.
Qed.

Lemma exec_keeps_handle sql parameters w :
  sqlite (self (snd (exec native sql parameters w))) = sqlite (self w).
Proof.
  rewrite exec_unfold.
  pose proof (prepare_keeps_frame native sql w) as (Hs & _).
  destruct (prepare native sql w) as [[[prepared|]|e] w1]; simpl in *; try done.
  pose proof (guarded_execute_world native sql prepared parameters w1) as Hw.
  destruct (try_catch _ _ w1) as [c w2]. simpl in *. subst w2.
  by rewrite load_extensions_keeps_handle, execute_world.
Qed.

Lemma call_cache_follows_handle c w :
  cache_follows_handle w → cache_follows_handle (call native c w).
Proof.
  unfold cache_follows_handle. intros Hw.
  destruct c as [filePath|sql|sql parameters|sql parameters| |filePath]; simpl.
  - unfold open. unfold_m. destruct (sqlite (self w)) eqn:Hs; simpl; [congruence|].
    destruct (native_open native (history w) filePath); simpl; [|done].
    intros _. by apply Hw.
  - pose proof (prepare_keeps_frame native sql w) as (Hs & _).
    rewrite Hs. intros Hn. rewrite prepare_closed by done. by apply Hw.
  - rewrite exec_keeps_handle. intros Hn. rewrite exec_closed by done. by apply Hw.
  - unfold run. unfold_m. destruct (sqlite (self w)) eqn:Hs; simpl;
      [|by intros; apply Hw].
    rewrite exec_keeps_handle. congruence.
  - rewrite close_unfold. simpl.
    destruct (sqlite (self w)) eqn:Hs; simpl; [done|by intros; apply Hw].
  - unfold delete, bind. rewrite close_unfold.
    destruct (rm_attempts_spec filePath {| force := true; maxRetries := 5; retryDelay := 500 |}
                5 (match sqlite (self w) with
                   | Some db =>
                       mkWorld (mkSQLite None (initialized (self w)) ∅
                                  (retryCounter (self w)) (extensionsLoaded (self w)))
                         (history w ++ [EvClose db])
                   | None => w
                   end)) as (k & _ & Hk & _).
    unfold rm. simpl maxRetries. rewrite Hk. simpl.
    destruct (sqlite (self w)) eqn:Hs; simpl; [done|by intros; apply Hw].
Qed.

Lemma calls_cache_follows_handle cs : ∀ w,
  cache_follows_handle w → cache_follows_handle (calls native cs w).
Proof.
  induction cs as [|c cs IH]; intros w Hw; [done|].
  rewrite calls_cons. by apply IH, call_cache_follows_handle.
Qed.

Lemma delete_unfold filePath w :
  delete native filePath w = rm_attempts native 5 filePath delete_options (snd (close w)).
Proof. unfold delete, bind. by rewrite close_unfold. Qed.

End DeleteFacts.

(** C9.  In every state a worker can reach, [delete] first closes the
    connection: afterwards no handle is held and the statement cache is empty,
    and the [close] of an open handle is recorded before any removal is tried.
    The removal then makes at most five retries after the first attempt,
    waiting the fixed delay of 500 before each; every attempt before the last
    one failed; the call returns when the last attempt succeeds, and throws
    only when it fails with all five retries used. *)
Theorem delete_closes_then_removes native cs h filePath :
  let w := calls native cs (constructor h) in
  let closed := snd (close w) in
  let w' := snd (delete native filePath w) in
  sqlite (self w') = None ∧ preparedStatements (self w') = ∅ ∧
  history closed =
    history w ++ match sqlite (self w) with Some db => [EvClose db] | None => [] end ∧
  ∃ k, k ≤ 5 ∧
    w' = mkWorld (self closed)
           (history closed ++ rm_pairs k filePath delete_options ++ [EvUnlink filePath true]) ∧
    (∀ i, i < k →
       native_unlink native (history closed ++ rm_pairs i filePath delete_options)
         filePath true ≠ None) ∧
    match fst (delete native filePath w) with
    | Return _ =>
        native_unlink native (history closed ++ rm_pairs k filePath delete_options)
          filePath true = None
    | Throw e =>
        k = 5 ∧
        native_unlink native (history closed ++ rm_pairs k filePath delete_options)
          filePath true = Some e
    end.
Proof.
  intros w closed w'.
  assert (Hinv : cache_follows_handle w).
  { apply calls_cache_follows_handle. by intros _. }
  destruct (rm_attempts_spec native filePath delete_options 5 closed)
    as (k & Hk & Hw & Hfail & Hlast).
  assert (Hw' : w' = mkWorld (self closed)
             (history closed ++ rm_pairs k filePath delete_options ++ [EvUnlink filePath true])).
  { unfold w'. by rewrite delete_unfold. }
  assert (Hclosed : closed = match sqlite (self w) with
             | Some db =>
                 mkWorld (mkSQLite None (initialized (self w)) ∅ (retryCounter (self w))
                            (extensionsLoaded (self w)))
                   (history w ++ [EvClose db])
             | None => w
             end).
  { unfold closed. by rewrite close_unfold. }
  split; [|split; [|split]].
  - rewrite Hw', Hclosed. simpl. by destruct (sqlite (self w)) eqn:Hs.
  - rewrite Hw', Hclosed. simpl. destruct (sqlite (self w)) eqn:Hs; [done|by apply Hinv].
  - rewrite Hclosed. destruct (sqlite (self w)); [done|by rewrite app_nil_r].
  - exists k. repeat split; try done. by rewrite delete_unfold.
Qed.

(** The file is locked for the first two attempts: [delete] closes, fails
    twice, waits twice and succeeds at the third attempt.  On a file that stays
    locked it gives up after the sixth. *)
Example delete_run :
  let native := demo_native false in
  let w := snd (exec native "SELECT id FROM notes;" [] (opened_world false)) in
  let r := delete native "notes.db" w in
  fst r = Return tt ∧
  sqlite (self (snd r)) = None ∧ preparedStatements (self (snd r)) = ∅ ∧
  history (snd r) =
    history w ++
      [EvClose (Handle 1); EvUnlink "notes.db" true; EvDelay 500;
       EvUnlink "notes.db" true; EvDelay 500; EvUnlink "notes.db" true].
Proof. vm_compute. done. Qed.

(** ** The cache over the life of a connection *)

Section ConnectionFacts.

Context (native : Native).

Lemma prepare_keeps_cached sql' sql cached w :
  preparedStatements (self w) !! sql = Some cached →
  preparedStatements (self (snd (prepare native sql' w))) !! sql = Some cached.
Proof.
  revert w.
  apply (prepare_induction native sql'
           (λ w r, preparedStatements (self w) !! sql = Some cached →
                   preparedStatements (self (snd r)) !! sql = Some cached)).
  - intros w p w1 (db & Hs & [(c & _ & _ & ->)|[(_ & _ & _ & ->)|(q & Hn & _ & _ & ->)]])
      %prepare_attempt_returned Hc; simpl; try done.
    rewrite lookup_insert_ne; [done|]. intros ->. congruence.
  - by intros w ex w1 [(_ & _ & ->)|(db & e & _ & _ & _ & _ & _ & ->)]%prepare_attempt_thrown.
  - intros w w1 r (db & ex & c & _ & _ & _ & _ & _ & _ & ->)%prepare_attempt_recurse IH Hc.
    by apply IH.
Qed.

Lemma load_extensions_self w :
  let o := self (snd (load_extensions_when_ready native w)) in
  o = self w ∨ o = set_extensionsLoaded true (self w).
Proof.
  simpl. destruct (extensionsLoaded (self w)) eqn:He.
  { left. by rewrite load_extensions_loaded. }
  destruct (isDatabaseReady_spec native w) as (b & added & Hp & _).
  rewrite (load_extensions_pending native w b _ He Hp). destruct b; auto.
Qed.

Lemma exec_keeps_cached sql' parameters sql cached w :
  preparedStatements (self w) !! sql = Some cached →
  preparedStatements (self (snd (exec native sql' parameters w))) !! sql = Some cached.
Proof.
  intros Hc. rewrite exec_unfold.
  pose proof (prepare_keeps_cached sql' sql cached w Hc) as Hp.
  destruct (prepare native sql' w) as [[[prepared|]|e] w1]; simpl in *; try done.
  pose proof (guarded_execute_world native sql' prepared parameters w1) as Hw.
  destruct (try_catch _ _ w1) as [c w2]. simpl in *. subst w2.
  destruct (load_extensions_self (snd (execute native prepared parameters w1))) as [->| ->];
    by rewrite execute_world.
Qed.

Lemma call_keeps_connection c sql cached db w :
  keeps_connection c = true →
  sqlite (self w) = Some db →
  preparedStatements (self w) !! sql = Some cached →
  sqlite (self (call native c w)) = Some db ∧
  preparedStatements (self (call native c w)) !! sql = Some cached.
Proof.
  intros Hk Hs Hc.
  destruct c as [filePath|sql'|sql' parameters|sql' parameters| |filePath]; simpl;
    try done.
  - unfold open. unfold_m. by rewrite Hs.
  - split; [|by apply prepare_keeps_cached].
    pose proof (prepare_keeps_frame native sql' w) as (-> & _). done.
  - split; [|by apply exec_keeps_cached]. by rewrite exec_keeps_handle.
  - unfold run. unfold_m. rewrite Hs.
    split; [|by apply exec_keeps_cached]. by rewrite exec_keeps_handle.
Qed.

Lemma calls_keep_connection cs sql cached db : ∀ w,
  forallb keeps_connection cs = true →
  sqlite (self w) = Some db →
  preparedStatements (self w) !! sql = Some cached →
  sqlite (self (calls native cs w)) = Some db ∧
  preparedStatements (self (calls native cs w)) !! sql = Some cached.
Proof.
  induction cs as [|c cs IH]; intros w Hk Hs Hc; [done|].
  simpl in Hk. apply andb_true_iff in Hk as [Hk Hks].
  rewrite calls_cons.
  destruct (call_keeps_connection c sql cached db w Hk Hs Hc) as [Hs' Hc'].
  by apply IH.
Qed.

End ConnectionFacts.

(** C4.  After a [prepare] of a text has handed back a statement, the cache
    holds that statement under the text, and a second [prepare] of the same
    text on the same open connection (at once, or after any calls that do not
    close it) hands back the very same statement object: nothing is compiled,
    and neither the object nor the history changes. *)
Theorem prepare_again_returns_cached native sql w prepared w1 :
  prepare native sql w = (Return (Some prepared), w1) →
  preparedStatements (self w1) !! sql = Some prepared ∧
  prepare native sql w1 = (Return (Some prepared), w1) ∧
  (∀ cs, forallb keeps_connection cs = true →
     let w2 := calls native cs w1 in
     prepare native sql w2 = (Return (Some prepared), w2)).
Proof.
  intros [[db Hs] Hc]%prepare_result_cached.
  split; [done|]. split.
  - by apply (prepare_cached native sql w1 db prepared).
  - intros cs Hk. cbv zeta.
    destruct (calls_keep_connection native cs sql prepared db w1 Hk Hs Hc) as [Hs' Hc'].
    by apply (prepare_cached native sql _ db prepared).
Qed.

Lemma prepare_again_returns_cached_witness :
  let native := demo_native false in
  let sql := "SELECT id FROM notes;" in
  let prepared := mkStatement 2 sql true in
  let w1 := snd (prepare native sql (opened_world false)) in
  preparedStatements (self w1) !! sql = Some prepared ∧
  prepare native sql w1 = (Return (Some prepared), w1) ∧
  (∀ cs, forallb keeps_connection cs = true →
     let w2 := calls native cs w1 in
     prepare native sql w2 = (Return (Some prepared), w2)).
Proof.
  apply (prepare_again_returns_cached (demo_native false) "SELECT id FROM notes;"
           (opened_world false)).
  vm_compute. reflexivity.
Defined.

(** The statement compiled by the first call is the one every later call
    gets, with a single compilation of the text in the whole history. *)
Example prepare_again_run :
  let native := demo_native false in
  let sql := "SELECT id FROM notes;" in
  let w1 := snd (prepare native sql (opened_world false)) in
  let w2 := calls native [CallExec "INSERT INTO notes (id) VALUES (?);" [PBigint 5];
                          CallExec sql []; CallOpen "other.db"] w1 in
  fst (prepare native sql (opened_world false)) = Return (Some (mkStatement 2 sql true)) ∧
  fst (prepare native sql w2) = Return (Some (mkStatement 2 sql true)) ∧
  compilations sql (history (snd (prepare native sql w2))) = 1.
Proof. vm_compute. done. Qed.

(** * Further properties of the class *)

Section MethodFrames.

Context (native : Native).

(** After [exec], the object is the one [prepare] left, but for the flag. *)
Lemma exec_self sql parameters w :
  let o := self (snd (exec native sql parameters w)) in
  let o1 := self (snd (prepare native sql w)) in
  o = o1 ∨ o = set_extensionsLoaded true o1.
Proof.
  simpl. rewrite exec_unfold.
  destruct (prepare native sql w) as [[[prepared|]|e] w1]; simpl; auto.
  pose proof (guarded_execute_world native sql prepared parameters w1) as Hw.
  destruct (try_catch _ _ w1) as [c w2]. simpl in *. subst w2.
  destruct (load_extensions_self native (snd (execute native prepared parameters w1)))
    as [->| ->]; rewrite execute_world; auto.
Qed.

Lemma run_closed sql parameters w :
  sqlite (self w) = None →
  run native sql parameters w = (Throw (ErrorObj "No database is not opened."), w).
Proof. intros Hs. unfold run. unfold_m. by rewrite Hs. Qed.

Lemma run_open sql parameters w db :
  sqlite (self w) = Some db →
  run native sql parameters w = exec native sql (default [] parameters) w.
Proof. intros Hs. unfold run. unfold_m. by rewrite Hs. Qed.

Lemma close_closed w : sqlite (self w) = None → close w = (Return tt, w).
Proof. intros Hs. by rewrite close_unfold, Hs. Qed.

Lemma call_closed c w :
  sqlite (self w) = None → needs_handle c = true → call native c w = w.
Proof.
  intros Hs Hc.
  destruct c as [filePath|sql|sql parameters|sql parameters| |filePath]; simpl; try done.
  - by rewrite prepare_closed.
  - by rewrite exec_closed.
  - by rewrite run_closed.
  - by rewrite close_closed.
Qed.

Lemma calls_closed cs : ∀ w,
  sqlite (self w) = None → forallb needs_handle cs = true → calls native cs w = w.
Proof.
  induction cs as [|c cs IH]; intros w Hs Hk; [done|].
  simpl in Hk. apply andb_true_iff in Hk as [Hc Hk].
  rewrite calls_cons, call_closed by done. by apply IH.
Qed.

End MethodFrames.

(** X1.  A worker without a handle (before [open], after [close]) is inert:
    [prepare] and [exec] throw "Database is not initialized.", [run] throws
    its own "No database is not opened.", [close] returns, and none of them
    reaches the engine, writes to the console or changes the object; so any
    sequence of such calls leaves the worker exactly as it was. *)
Theorem closed_worker_is_inert native w :
  sqlite (self w) = None →
  (∀ sql, prepare native sql w = (Throw (ErrorObj "Database is not initialized."), w)) ∧
  (∀ sql parameters,
     exec native sql parameters w = (Throw (ErrorObj "Database is not initialized."), w)) ∧
  (∀ sql parameters,
     run native sql parameters w = (Throw (ErrorObj "No database is not opened."), w)) ∧
  close w = (Return tt, w) ∧
  (∀ cs, forallb needs_handle cs = true → calls native cs w = w).
Proof.
  intros Hs. repeat split.
  - intros sql. by apply prepare_closed.
  - intros sql parameters. by apply exec_closed.
  - intros sql parameters. by apply run_closed.
  - by apply close_closed.
  - intros cs Hk. by apply calls_closed.
Qed.

Lemma closed_worker_is_inert_witness :
  let native := demo_native true in
  let w := snd (close (opened_world true)) in
  (∀ sql, prepare native sql w = (Throw (ErrorObj "Database is not initialized."), w)) ∧
  (∀ sql parameters,
     exec native sql parameters w = (Throw (ErrorObj "Database is not initialized."), w)) ∧
  (∀ sql parameters,
     run native sql parameters w = (Throw (ErrorObj "No database is not opened."), w)) ∧
  close w = (Return tt, w) ∧
  (∀ cs, forallb needs_handle cs = true → calls native cs w = w).
Proof.
  apply (closed_worker_is_inert (demo_native true) (snd (close (opened_world true)))).
  reflexivity.
Defined.

(** ** Retries that end *)

Lemma retry_events_counts sql db ex :
  let evs := [EvPrepare db sql; EvConsoleError [LogThrown ex];
              EvConsoleWarn [LogText "Failed to prepare statement. Retrying:"; LogText sql]] in
  compilations sql evs = 1 ∧ retries sql evs = 1.
Proof.
  unfold compilations, retries. simpl. rewrite String.eqb_refl. done.
Qed.

Lemma compile_event_counts sql db :
  compilations sql [EvPrepare db sql] = 1 ∧ retries sql [EvPrepare db sql] = 0.
Proof.
  unfold compilations, retries. simpl. rewrite String.eqb_refl. done.
Qed.

(** X2.  The retry at work.  When the counter of a text holds [c] and the
    compilation of the text fails [k] times with [c + k] within the bound of
    five and then goes through, [prepare] returns the compiled statement: it
    has announced [k] retries and asked for [k + 1] compilations, the
    statement is in the cache, and the counter is back at 0. *)
Theorem prepare_recovers_from_flaky_compilation native sql db prepared k : ∀ w c,
  sqlite (self w) = Some db →
  preparedStatements (self w) !! sql = None →
  RetryCounter.get (retryCounter (self w)) sql = Some c →
  c + k ≤ 5 →
  fails_then_compiles native db sql (history w) k prepared →
  ∃ w',
    prepare native sql w = (Return (Some prepared), w') ∧
    preparedStatements (self w') !! sql = Some prepared ∧
    RetryCounter.get (retryCounter (self w')) sql = Some 0 ∧
    retries sql (history w') = retries sql (history w) + k ∧
    compilations sql (history w') = compilations sql (history w) + S k.
Proof.
  induction k as [|k IH]; intros w c Hs Hc Hget Hck Hflaky;
    assert (Hown : RetryCounter.own_key sql = true)
      by (unfold RetryCounter.get in Hget; by destruct (RetryCounter.own_key sql)).
  - destruct (Hflaky []) as [_ Hok]. rewrite app_nil_r in Hok.
    specialize (Hok eq_refl).
    exists (mkWorld (cached_as sql prepared (self w)) (history w ++ [EvPrepare db sql])).
    rewrite prepare_unfold, (prepare_attempt_compiled native sql w db prepared) by done.
    destruct (compile_event_counts sql db) as [Hcomp Hret].
    simpl. rewrite retries_app, compilations_app, Hcomp, Hret.
    repeat split; try lia.
    + apply lookup_insert_eq.
    + by apply counter_get_set.
  - destruct (Hflaky []) as [Hfail _]. rewrite app_nil_r in Hfail.
    destruct Hfail as [ex Hex]; [unfold compilations; simpl; lia|].
    rewrite prepare_unfold, (prepare_attempt_retry native sql w db ex); try done.
    2:{ rewrite Hget. simpl. apply Nat.ltb_lt. lia. }
    rewrite Hget. simpl.
    destruct (retry_events_counts sql db ex) as [Hcomp Hret].
    destruct (IH (mkWorld (counted sql (c + 1) (self w))
                (history w ++
                   [EvPrepare db sql; EvConsoleError [LogThrown ex];
                    EvConsoleWarn [LogText "Failed to prepare statement. Retrying:";
                                   LogText sql]])) (c + 1))
      as (w' & Hp & Hcache & Hzero & Hr & Hcmp); simpl; try done.
    + by apply counter_get_set.
    + lia.
    + intros added. rewrite <- app_assoc.
      destruct (Hflaky ([EvPrepare db sql; EvConsoleError [LogThrown ex];
                         EvConsoleWarn [LogText "Failed to prepare statement. Retrying:";
                                        LogText sql]] ++ added)) as [Hlt Heq].
      rewrite compilations_app, Hcomp in Hlt, Heq.
      split; intros Hk; [apply Hlt|apply Heq]; lia.
    + exists w'. simpl in Hr, Hcmp.
      rewrite retries_app, Hret in Hr. rewrite compilations_app, Hcomp in Hcmp.
      repeat split; try done; lia.
Qed.

Lemma prepare_recovers_from_flaky_compilation_witness :
  let sql := "SELECT id FROM notes;" in
  let prepared := mkStatement 7 sql true in
  let locked := CompileThrows (ErrorObj "database is locked") in
  let native := scripted_native [locked; locked; locked] (Compiled prepared) in
  let w := snd (prepare native sql (opened_world false)) in
  ∃ w',
    prepare native sql w = (Return (Some prepared), w') ∧
    preparedStatements (self w') !! sql = Some prepared ∧
    RetryCounter.get (retryCounter (self w')) sql = Some 0 ∧
    retries sql (history w') = retries sql (history w) + 2 ∧
    compilations sql (history w') = compilations sql (history w) + 3.
Proof.
  apply (prepare_recovers_from_flaky_compilation
           (scripted_native
              [CompileThrows (ErrorObj "database is locked");
               CompileThrows (ErrorObj "database is locked");
               CompileThrows (ErrorObj "database is locked")]
              (Compiled (mkStatement 7 "SELECT id FROM notes;" true)))
           "SELECT id FROM notes;" (Handle 1)
           (mkStatement 7 "SELECT id FROM notes;" true) 2 _ 0).
  - reflexivity.
  - reflexivity.
  - reflexivity.
  - lia.
  - intros added. simpl native_prepare. rewrite compilations_app.
    change (compilations "SELECT id FROM notes;" _ + ?x) with (1 + x).
    destruct (compilations "SELECT id FROM notes;" added) as [|[|[|n]]]; simpl;
      split; intros Hk; try lia; try done; by eexists.
Defined.

(** ** What the object keeps over any sequence of calls *)

Lemma counter_get_set_ne m sql sql' n :
  sql' ≠ sql →
  RetryCounter.get (RetryCounter.set sql n m) sql' = RetryCounter.get m sql'.
Proof.
  intros Hne. unfold RetryCounter.get, RetryCounter.set.
  destruct (RetryCounter.own_key sql'); [|done].
  destruct (RetryCounter.own_key sql); [|done].
  by rewrite lookup_insert_ne.
Qed.

Lemma counter_get_set_cases m sql sql' n c :
  RetryCounter.get (RetryCounter.set sql n m) sql' = Some c →
  (sql' = sql ∧ c = n) ∨ (sql' ≠ sql ∧ RetryCounter.get m sql' = Some c).
Proof.
  destruct (decide (sql' = sql)) as [->|Hne].
  - unfold RetryCounter.get, RetryCounter.set.
    destruct (RetryCounter.own_key sql); [|done].
    rewrite lookup_insert_eq. intros [= <-]. by left.
  - rewrite counter_get_set_ne by done. by right.
Qed.

Section CallInvariant.

Context (native : Native) (I : SQLite → Prop).

Hypothesis I_prepare : ∀ sql w, I (self w) → I (self (snd (prepare native sql w))).
Hypothesis I_flag : ∀ o, I o → I (set_extensionsLoaded true o).
Hypothesis I_open : ∀ o db, sqlite o = None → I o → I (set_sqlite (Some db) o).
Hypothesis I_close :
  ∀ o, I o → I (mkSQLite None (initialized o) ∅ (retryCounter o) (extensionsLoaded o)).

Lemma exec_invariant sql parameters w :
  I (self w) → I (self (snd (exec native sql parameters w))).
Proof.
  intros Hw. destruct (exec_self native sql parameters w) as [->| ->]; auto.
Qed.

Lemma close_invariant w : I (self w) → I (self (snd (close w))).
Proof.
  intros Hw. rewrite close_unfold. simpl. destruct (sqlite (self w)); simpl; auto.
Qed.

Lemma call_invariant c w : I (self w) → I (self (call native c w)).
Proof.
  intros Hw.
  destruct c as [filePath|sql|sql parameters|sql parameters| |filePath]; simpl.
  - unfold open. unfold_m. destruct (sqlite (self w)) eqn:Hs; simpl; [done|].
    destruct (native_open native (history w) filePath); simpl; auto.
  - by apply I_prepare.
  - by apply exec_invariant.
  - unfold run. unfold_m. destruct (sqlite (self w)); simpl; [|done].
    by apply exec_invariant.
  - by apply close_invariant.
  - rewrite delete_unfold.
    destruct (rm_attempts_spec native filePath delete_options 5 (snd (close w)))
      as (k & _ & -> & _).
    simpl. by apply close_invariant.
Qed.

Lemma calls_invariant cs : ∀ w, I (self w) → I (self (calls native cs w)).
Proof.
  induction cs as [|c cs IH]; intros w Hw; [done|].
  rewrite calls_cons. by apply IH, call_invariant.
Qed.

End CallInvariant.

Lemma constructor_counters h sql :
  RetryCounter.get (retryCounter (self (constructor h))) sql = None.
Proof.
  unfold RetryCounter.get. simpl. by destruct (RetryCounter.own_key sql).
Qed.

Lemma retryCounter_counted sql n o :
  retryCounter (counted sql n o) = RetryCounter.set sql n (retryCounter o).
Proof. reflexivity. Qed.

Section CounterFacts.

Context (native : Native).

Lemma counted_bounded sql n o :
  n ≤ 5 → counters_bounded o → counters_bounded (counted sql n o).
Proof.
  intros Hn Ho sql' c [[_ ->]|[_ Hc]]%counter_get_set_cases; [done|]. by eapply Ho.
Qed.

Lemma prepare_counters_bounded sql w :
  counters_bounded (self w) → counters_bounded (self (snd (prepare native sql w))).
Proof.
  revert w.
  apply (prepare_induction native sql
           (λ w r, counters_bounded (self w) → counters_bounded (self (snd r)))).
  - intros w p w1 (db & Hs & [(c & _ & _ & ->)|[(_ & _ & _ & ->)|(q & _ & _ & _ & ->)]])
      %prepare_attempt_returned Hw; simpl; try done.
    apply (counted_bounded sql 0 (set_preparedStatements _ (self w))); [lia|done].
  - intros w ex w1 [(_ & _ & ->)|(db & e & _ & _ & _ & _ & _ & ->)]%prepare_attempt_thrown Hw;
      simpl; [done|]. apply counted_bounded; [lia|done].
  - intros w w1 r (db & ex & c & _ & _ & _ & _ & Hc & _ & ->)%prepare_attempt_recurse IH Hw.
    apply IH. simpl. apply counted_bounded; [lia|done].
Qed.

Lemma counted_at_rest sql o :
  counters_at_rest_except sql o → counters_at_rest (counted sql 0 o).
Proof.
  intros Ho sql' c [[_ ->]|[Hne Hc]]%counter_get_set_cases; [done|]. by eapply Ho.
Qed.

Lemma prepare_counters_at_rest sql w :
  never_falsy native →
  counters_at_rest_except sql (self w) →
  counter_in_retry sql (self w) →
  counters_at_rest (self (snd (prepare native sql w))).
Proof.
  intros Hnf. revert w.
  apply (prepare_induction native sql
           (λ w r, counters_at_rest_except sql (self w) →
                   counter_in_retry sql (self w) →
                   counters_at_rest (self (snd r)))).
  - intros w p w1 (db & Hs & [(c & Hc & _ & ->)|[(_ & Hf & _)|(q & _ & _ & _ & ->)]])
      %prepare_attempt_returned Hex Hin; simpl.
    + intros sql' n Hn. destruct (decide (sql' = sql)) as [->|Hne]; [|by eapply Hex].
      destruct (Hin n Hn) as [->|[_ Hmiss]]; [done|congruence].
    + by destruct (Hnf (history w) db sql).
    + by apply (counted_at_rest sql (set_preparedStatements _ (self w))).
  - intros w ex w1 [(Hs & _ & ->)|(db & e & _ & _ & _ & _ & _ & ->)]%prepare_attempt_thrown
      Hex Hin; simpl.
    + intros sql' n Hn. destruct (decide (sql' = sql)) as [->|Hne]; [|by eapply Hex].
      destruct (Hin n Hn) as [->|[Hopen _]]; [done|congruence].
    + by apply counted_at_rest.
  - intros w w1 r (db & ex & c & Hs & Hmiss & _ & _ & Hc & _ & ->)%prepare_attempt_recurse
      IH Hex Hin.
    apply IH; cbn [self].
    + intros sql' n Hne. rewrite retryCounter_counted, counter_get_set_ne by done.
      by apply Hex.
    + intros n _. right. split; [simpl; congruence|done].
Qed.

Lemma prepare_keeps_at_rest sql w :
  never_falsy native →
  counters_at_rest (self w) → counters_at_rest (self (snd (prepare native sql w))).
Proof.
  intros Hnf Hw. apply prepare_counters_at_rest; [done| |].
  - intros sql' c _. apply Hw.
  - intros c Hc. left. by eapply Hw.
Qed.

End CounterFacts.

(** X4.  Whatever calls a client makes on a new worker, no retry counter
    ever reads above 5; and with an engine that never hands back a falsy
    statement (the one case in which [prepare] leaves a counter as it is),
    every counter reads 0 between calls: the counters are raised only while a
    [prepare] is retrying. *)
Theorem retry_counters_stay_bounded native cs h :
  let o := self (calls native cs (constructor h)) in
  counters_bounded o ∧ (never_falsy native → counters_at_rest o).
Proof.
  simpl. split.
  - apply (calls_invariant native counters_bounded); try done.
    + intros sql w. apply prepare_counters_bounded.
    + intros sql c. by rewrite constructor_counters.
  - intros Hnf. apply (calls_invariant native counters_at_rest); try done.
    + intros sql w. by apply prepare_keeps_at_rest.
    + intros sql c. by rewrite constructor_counters.
Qed.

(** A text that fails, a text that compiles and a worker that is closed and
    reopened: every counter reads 0 at the end. *)
Example retry_counters_run :
  let native := demo_native false in
  let w := calls native [CallOpen "notes.db"; CallPrepare "SELEC 1"; CallPrepare "SELEC 1";
                         CallExec "SELECT id FROM notes;" []; CallClose;
                         CallOpen "notes.db"; CallPrepare "SELEC 1"] fresh_world in
  RetryCounter.get (retryCounter (self w)) "SELEC 1" = Some 0 ∧
  RetryCounter.get (retryCounter (self w)) "SELECT id FROM notes;" = Some 0 ∧
  RetryCounter.get (retryCounter (self w)) "SELECT 1;" = None ∧
  retries "SELEC 1" (history w) = 10.
Proof. vm_compute. done. Qed.

Section CacheSoundness.

Context (native : Native).

Lemma prepare_cache_sound sql w :
  cache_sound native (self w) → cache_sound native (self (snd (prepare native sql w))).
Proof.
  revert w.
  apply (prepare_induction native sql
           (λ w r, cache_sound native (self w) → cache_sound native (self (snd r)))).
  - intros w p w1 (db & Hs & [(c & _ & _ & ->)|[(_ & _ & _ & ->)|(q & _ & Hn & _ & ->)]])
      %prepare_attempt_returned Hw; simpl; try done.
    intros sql' prepared. simpl.
    destruct (decide (sql' = sql)) as [->|Hne].
    + rewrite lookup_insert_eq. intros [= <-]. by exists db, (history w).
    + rewrite lookup_insert_ne by done. apply Hw.
  - by intros w ex w1 [(_ & _ & ->)|(db & e & _ & _ & _ & _ & _ & ->)]%prepare_attempt_thrown.
  - intros w w1 r (db & ex & c & _ & _ & _ & _ & _ & _ & ->)%prepare_attempt_recurse IH Hw.
    by apply IH.
Qed.

End CacheSoundness.

(** X5.  Whatever calls a client makes on a new worker, every statement in
    the cache was compiled by the engine from the very text it is stored
    under, on the handle that is open now: no statement of a closed connection
    is ever kept, and with no handle the cache is empty. *)
Theorem cached_statements_belong_to_the_open_handle native cs h sql prepared :
  let o := self (calls native cs (constructor h)) in
  preparedStatements o !! sql = Some prepared →
  ∃ db hc, sqlite o = Some db ∧ native_prepare native hc db sql = Compiled prepared.
Proof.
  simpl. revert sql prepared.
  apply (calls_invariant native (cache_sound native)); try done.
  - intros sql w. apply prepare_cache_sound.
  - intros o db Hs Ho sql prepared Hc.
    destruct (Ho sql prepared Hc) as (db' & _ & Hs' & _). simpl in *. congruence.
Qed.

Lemma cached_statements_belong_to_the_open_handle_witness :
  let native := demo_native false in
  let sql := "SELECT id FROM notes;" in
  let o := self (calls native [CallOpen "a.db"; CallExec sql []; CallClose;
                               CallOpen "b.db"; CallExec sql []] (constructor [])) in
  ∃ db hc, sqlite o = Some db ∧
           native_prepare native hc db sql = Compiled (mkStatement 10 sql true).
Proof.
  apply (cached_statements_belong_to_the_open_handle (demo_native false)
           [CallOpen "a.db"; CallExec "SELECT id FROM notes;" []; CallClose;
            CallOpen "b.db"; CallExec "SELECT id FROM notes;" []] []
           "SELECT id FROM notes;" (mkStatement 10 "SELECT id FROM notes;" true)).
  vm_compute. reflexivity.
Defined.

(** X9.  The [initialized] field is never written: it reads [false] after
    any sequence of calls, a successful [open] included. *)
Theorem initialized_is_never_set native cs h :
  initialized (self (calls native cs (constructor h))) = false.
Proof.
  apply (calls_invariant native (λ o, initialized o = false)); try done.
  intros sql w Hw. by destruct (prepare_keeps_frame native sql w) as (_ & -> & _).
Qed.

(** ** One text at a time *)

Lemma counter_set_lookup_ne (m : gmap string nat) sql sql' n :
  sql' ≠ sql → RetryCounter.set sql n m !! sql' = m !! sql'.
Proof.
  intros Hne. unfold RetryCounter.set. destruct (RetryCounter.own_key sql); [|done].
  by rewrite lookup_insert_ne.
Qed.

(** X10.  [prepare] of one text touches nothing that belongs to another
    text: the retry counter and the cache entry of every other text are after
    the call what they were before it, whether the call returned or threw and
    however often it retried. *)
Theorem prepare_touches_one_text native sql sql' w :
  sql' ≠ sql →
  let w' := snd (prepare native sql w) in
  retryCounter (self w') !! sql' = retryCounter (self w) !! sql' ∧
  preparedStatements (self w') !! sql' = preparedStatements (self w) !! sql'.
Proof.
  intros Hne. simpl. revert w.
  apply (prepare_induction native sql
           (λ w r, retryCounter (self (snd r)) !! sql' = retryCounter (self w) !! sql' ∧
                   preparedStatements (self (snd r)) !! sql'
                     = preparedStatements (self w) !! sql')).
  - intros w p w1 (db & Hs & [(c & _ & _ & ->)|[(_ & _ & _ & ->)|(q & _ & _ & _ & ->)]])
      %prepare_attempt_returned; simpl; try done.
    by rewrite counter_set_lookup_ne, lookup_insert_ne.
  - intros w ex w1 [(_ & _ & ->)|(db & e & _ & _ & _ & _ & _ & ->)]%prepare_attempt_thrown;
      simpl; [done|]. by rewrite counter_set_lookup_ne.
  - intros w w1 r (db & ex & c & _ & _ & _ & _ & _ & _ & ->)%prepare_attempt_recurse
      [Hrc Hps]. simpl in *. by rewrite Hrc, Hps, counter_set_lookup_ne.
Qed.

Lemma prepare_touches_one_text_witness :
  let native := demo_native false in
  let w := snd (exec native "SELECT id FROM notes;" []
                  (snd (prepare native "SELEC 2" (opened_world false)))) in
  let w' := snd (prepare native "SELEC 1" w) in
  retryCounter (self w') !! "SELEC 2" = retryCounter (self w) !! "SELEC 2" ∧
  preparedStatements (self w') !! "SELEC 2" = preparedStatements (self w) !! "SELEC 2".
Proof.
  apply (prepare_touches_one_text (demo_native false) "SELEC 1" "SELEC 2").
  discriminate.
Defined.

(** ** Closing and opening again *)

Section ReopenFacts.

Context (native : Native).

(** On an open handle, a text that is not in the cache is compiled: the
    first thing [prepare] adds to the history is the compilation. *)
Lemma prepare_miss_compiles sql w db :
  sqlite (self w) = Some db →
  preparedStatements (self w) !! sql = None →
  ∃ tail, history (snd (prepare native sql w)) = history w ++ EvPrepare db sql :: tail.
Proof.
  intros Hs Hc. rewrite prepare_unfold.
  destruct (native_prepare native (history w) db sql) as [ex| |prepared] eqn:Hn.
  - destruct (RetryCounter.lt (RetryCounter.get (retryCounter (self w)) sql) 5) eqn:Hlt.
    + rewrite (prepare_attempt_retry native sql w db ex) by done.
      match goal with |- context [prepare native sql ?w1] =>
        destruct (prepare_keeps_frame native sql w1) as (_ & _ & _ & added & -> & _)
      end.
      simpl. rewrite <- app_assoc. by eexists.
    + rewrite (prepare_attempt_give_up native sql w db ex) by done. by eexists.
  - rewrite (prepare_attempt_falsy native sql w db) by done. by eexists.
  - rewrite (prepare_attempt_compiled native sql w db prepared) by done. by eexists.
Qed.

Lemma close_then_open w db filePath db' :
  sqlite (self w) = Some db →
  native_open native (history w ++ [EvClose db]) filePath = inr db' →
  calls native [CallClose; CallOpen filePath] w =
    mkWorld (mkSQLite (Some db') (initialized (self w)) ∅ (retryCounter (self w))
               (extensionsLoaded (self w)))
      (history w ++ [EvClose db; EvOpen filePath]).
Proof.
  intros Hs Ho. unfold calls. simpl. rewrite close_unfold, Hs. simpl.
  unfold open. unfold_m. simpl. rewrite Ho. simpl. by rewrite app_two.
Qed.

End ReopenFacts.

(** X6.  Closing and opening again starts from an empty cache on the new
    handle and keeps the retry counters: after [close] and a successful
    [open], the handle is the one the engine gave, the cache is empty, the
    counters are those from before, and [prepare] of any text (cached on the
    old handle or not) asks the engine to compile it on the new handle. *)
Theorem reopened_worker_compiles_again native w db filePath db' sql :
  sqlite (self w) = Some db →
  native_open native (history w ++ [EvClose db]) filePath = inr db' →
  let w2 := calls native [CallClose; CallOpen filePath] w in
  sqlite (self w2) = Some db' ∧
  preparedStatements (self w2) = ∅ ∧
  retryCounter (self w2) = retryCounter (self w) ∧
  ∃ tail, history (snd (prepare native sql w2)) = history w2 ++ EvPrepare db' sql :: tail.
Proof.
  intros Hs Ho. cbv zeta. rewrite (close_then_open native w db filePath db') by done.
  repeat split. by apply prepare_miss_compiles.
Qed.

Lemma reopened_worker_compiles_again_witness :
  let native := demo_native false in
  let sql := "SELECT id FROM notes;" in
  let w := snd (exec native sql [] (opened_world false)) in
  let w2 := calls native [CallClose; CallOpen "notes.db"] w in
  sqlite (self w2) = Some (Handle 9) ∧
  preparedStatements (self w2) = ∅ ∧
  retryCounter (self w2) = retryCounter (self w) ∧
  ∃ tail, history (snd (prepare native sql w2))
            = history w2 ++ EvPrepare (Handle 9) sql :: tail.
Proof.
  apply (reopened_worker_compiles_again (demo_native false)
           (snd (exec (demo_native false) "SELECT id FROM notes;" [] (opened_world false)))
           (Handle 1) "notes.db" (Handle 9) "SELECT id FROM notes;").
  - reflexivity.
  - vm_compute. reflexivity.
Defined.

(** ** Edges of [prepare] and [exec] *)

(** X7.  When the engine hands back a falsy value for a compilation,
    [prepare] returns no statement and [exec] returns the empty result (no
    rows, no counts) without throwing: nothing is cached, the retry counter is
    not reset, nothing is executed, and [exec] leaves before its [finally], so
    neither the probe nor a load happens.  The one trace is the compilation
    itself. *)
Theorem falsy_compilation_gives_the_empty_result native sql parameters w db :
  sqlite (self w) = Some db →
  preparedStatements (self w) !! sql = None →
  native_prepare native (history w) db sql = CompileFalsy →
  let w1 := mkWorld (self w) (history w ++ [EvPrepare db sql]) in
  prepare native sql w = (Return None, w1) ∧
  exec native sql parameters w = (Return (mkQueryResult [] None None), w1).
Proof.
  intros Hs Hc Hn. cbv zeta.
  assert (Hp : prepare native sql w =
                 (Return None, mkWorld (self w) (history w ++ [EvPrepare db sql]))).
  { by rewrite prepare_unfold, (prepare_attempt_falsy native sql w db). }
  split; [done|]. by rewrite exec_unfold, Hp.
Qed.

Lemma falsy_compilation_gives_the_empty_result_witness :
  let native := scripted_native [] CompileFalsy in
  let w := opened_world false in
  let w1 := mkWorld (self w) (history w ++ [EvPrepare (Handle 1) "SELECT 1;"]) in
  prepare native "SELECT 1;" w = (Return None, w1) ∧
  exec native "SELECT 1;" [] w = (Return (mkQueryResult [] None None), w1).
Proof.
  apply (falsy_compilation_gives_the_empty_result (scripted_native [] CompileFalsy)
           "SELECT 1;" [] (opened_world false) (Handle 1)).
  - reflexivity.
  - reflexivity.
  - reflexivity.
Defined.

Lemma BigInt_refuses toString n :
  not_an_integer n = true → BigInt toString n = inl (BigInt_RangeError (toString n)).
Proof.
  destruct n as [| |q]; simpl; try done. by destruct (is_integer q).
Qed.

Lemma BigInt_accepts toString n :
  not_an_integer n = false → ∃ z, BigInt toString n = inr z.
Proof.
  destruct n as [| |q]; simpl; try done. destruct (is_integer q); [by eexists|done].
Qed.

Section ConversionFacts.

Context (native : Native).

Lemma execute_offending_number prepared parameters w info n :
  reader prepared = false →
  native_run native (history w) prepared parameters = inr info →
  offending_number info = Some n →
  execute native prepared parameters w =
    (Throw (BigInt_RangeError (native_toString native n)),
     mkWorld (self w) (history w ++ [EvRun prepared parameters])).
Proof.
  intros Hr Hrun Hoff. unfold execute. unfold_m. rewrite Hr. simpl. rewrite Hrun.
  destruct info as [c i]. unfold offending_number in Hoff. simpl in *.
  assert (Hrow : ∀ a : option Z,
            match i with
            | Defined (RowNumber m) => if not_an_integer m then Some m else None
            | _ => None
            end = Some n →
            (let (c0, w1) :=
               match i with
               | Defined (RowNumber m) =>
                   match BigInt (native_toString native) m with
                   | inl ex => λ w, (Throw ex, w)
                   | inr z => λ w, (Return (Some z), w)
                   end
               | Defined (RowBigint z) => λ w, (Return (Some z), w)
               | _ => λ w, (Return None, w)
               end (mkWorld (self w) (history w ++ [EvRun prepared parameters])) in
             match c0 with
             | Return b => (Return (mkQueryResult [] a b), w1)
             | Throw e => (Throw e, w1)
             end) =
            (Throw (BigInt_RangeError (native_toString native n)),
             mkWorld (self w) (history w ++ [EvRun prepared parameters]))).
  { intros a Hi. destruct i as [| |[m|z]]; try done.
    destruct (not_an_integer m) eqn:Hm; [|done]. injection Hi as <-.
    by rewrite (BigInt_refuses _ m Hm). }
  destruct c as [| |c]; simpl; try (by apply Hrow).
  destruct (isNaN c); simpl in *; [by apply Hrow|].
  destruct (not_an_integer c) eqn:Hc.
  - injection Hoff as <-. by rewrite (BigInt_refuses _ c Hc).
  - destruct (BigInt_accepts (native_toString native) c Hc) as [z ->]. simpl.
    by apply Hrow.
Qed.

Lemma load_extensions_history w :
  ∃ tail, history (snd (load_extensions_when_ready native w)) = history w ++ tail.
Proof.
  destruct (extensionsLoaded (self w)) eqn:He.
  { rewrite load_extensions_loaded by done. exists []. by rewrite app_nil_r. }
  destruct (isDatabaseReady_spec native w) as (b & added & Hp & _).
  rewrite (load_extensions_pending native w b _ He Hp).
  destruct b; simpl; [|by eexists]. rewrite <- app_assoc. by eexists.
Qed.

End ConversionFacts.

(** X8.  A writer whose engine reports a change count that is a number but
    no integer (other than [NaN], which is passed over), or a row id that is a
    number but no integer ([NaN] included), makes [exec] throw the
    [RangeError] of [BigInt] for that number, with the query appended to its
    message, after the statement has been run: the call fails although the
    engine has carried out the statement. *)
Theorem exec_throws_on_counts_that_are_not_integers
    native sql parameters w prepared w1 info n :
  prepare native sql w = (Return (Some prepared), w1) →
  reader prepared = false →
  native_run native (history w1) prepared parameters = inr info →
  offending_number info = Some n →
  fst (exec native sql parameters w) =
    Throw (ErrorObj (("The number " +:+ native_toString native n +:+
                      " cannot be converted to a BigInt because it is not an integer")
                     +:+ " (query: " +:+ sql +:+ ")")) ∧
  ∃ tail, history (snd (exec native sql parameters w))
            = history w1 ++ EvRun prepared parameters :: tail.
Proof.
  intros Hp Hr Hrun Hoff. rewrite exec_unfold, Hp.
  assert (Ht : try_catch (execute native prepared parameters)
                 (λ e, throw (annotate sql e)) w1 =
               (Throw (annotate sql (BigInt_RangeError (native_toString native n))),
                mkWorld (self w1) (history w1 ++ [EvRun prepared parameters]))).
  { unfold try_catch, throw.
    by rewrite (execute_offending_number native prepared parameters w1 info n). }
  rewrite Ht. cbn [fst snd]. split; [done|].
  destruct (load_extensions_history native
              (mkWorld (self w1) (history w1 ++ [EvRun prepared parameters])))
    as [tail Htail].
  rewrite Htail. cbn [history]. rewrite <- app_assoc. by eexists.
Qed.

Lemma exec_throws_on_counts_that_are_not_integers_witness :
  let native := demo_native false in
  let sql := "INSERT INTO notes (id) VALUES (?);" in
  let parameters := [PNumber (Finite (1 # 2))] in
  let w := opened_world false in
  let prepared := mkStatement 2 sql false in
  let w1 := snd (prepare native sql w) in
  fst (exec native sql parameters w) =
    Throw (ErrorObj (("The number " +:+ native_toString native (Finite (1 # 2)) +:+
                      " cannot be converted to a BigInt because it is not an integer")
                     +:+ " (query: " +:+ sql +:+ ")")) ∧
  ∃ tail, history (snd (exec native sql parameters w))
            = history w1 ++ EvRun prepared parameters :: tail.
Proof.
  apply (exec_throws_on_counts_that_are_not_integers (demo_native false)
           "INSERT INTO notes (id) VALUES (?);" [PNumber (Finite (1 # 2))]
           (opened_world false)
           (mkStatement 2 "INSERT INTO notes (id) VALUES (?);" false)
           (snd (prepare (demo_native false) "INSERT INTO notes (id) VALUES (?);"
                   (opened_world false)))
           (mkRunResult (Defined (Finite 1)) (Defined (RowNumber (Finite (1 # 2)))))
           (Finite (1 # 2))).
  - vm_compute. reflexivity.
  - reflexivity.
  - vm_compute. reflexivity.
  - reflexivity.
Defined.

(** The message as it reaches the caller, for a row id of one half and for a
    change count that is infinite. *)
Example exec_range_errors_run :
  fst (exec (demo_native false) "INSERT INTO notes (id) VALUES (?);"
         [PNumber (Finite (1 # 2))] (opened_world false))
    = Throw (ErrorObj ("The number 0.5 cannot be converted to a BigInt because it is " +:+
                       "not an integer (query: INSERT INTO notes (id) VALUES (?);)")) ∧
  offending_number (mkRunResult (Defined (Infinity true)) (Defined (RowBigint 3)))
    = Some (Infinity true) ∧
  offending_number (mkRunResult (Defined NaN) (Defined (RowNumber NaN))) = Some NaN ∧
  offending_number (mkRunResult (Defined NaN) (Defined (RowBigint 3))) = None ∧
  BigInt demo_toString (Infinity true)
    = inl (ErrorObj ("The number -Infinity cannot be converted to a BigInt because " +:+
                     "it is not an integer")).
Proof. vm_compute. done. Qed.

(** ** What the probe costs *)

Section ProbeCost.

Context (native : Native).



End ProbeCost.



(** Three calls on a database that is not yet decrypted: each one has paid
    for a compilation of [SELECT 1;], and the cache holds the one statement
    that was asked for. *)
Example exec_probe_cost_run :
  let native := demo_native true in
  let cipher := CallExec "PRAGMA cipher = 'sqlcipher';" [] in
  let w := calls native [CallOpen "notes.db"; cipher; cipher; cipher] fresh_world in
  compilations "SELECT 1;" (history w) = 3 ∧
  compilations "PRAGMA cipher = 'sqlcipher';" (history w) = 1 ∧
  preparedStatements (self w) !! "SELECT 1;" = None.
Proof. vm_compute. done. Qed.

(** ** The probe, and a failure that has been surfaced *)

(** X12.  The readiness probe is silent.  Whatever the engine does, it
    returns a boolean and never throws, and it never changes the object.  It
    says [true] exactly when a handle is open and the engine both compiles
    [SELECT 1;] on it and runs the compiled statement without parameters; with
    no handle it says [false] without a native call. *)
Theorem isDatabaseReady_is_silent native w :
  ∃ b w',
    isDatabaseReady native w = (Return b, w') ∧
    self w' = self w ∧
    (sqlite (self w) = None → b = false ∧ w' = w) ∧
    (b = true ↔
     ∃ db probe info,
       sqlite (self w) = Some db ∧
       native_prepare native (history w) db "SELECT 1;" = Compiled probe ∧
       native_run native (history w ++ [EvPrepare db "SELECT 1;"]) probe [] = inr info).
Proof.
  destruct (sqlite (self w)) as [db|] eqn:Hs.
  - unfold isDatabaseReady. unfold_m. rewrite Hs. simpl.
    destruct (native_prepare native (history w) db "SELECT 1;") as [ex| |probe] eqn:Hn;
      simpl.
    + exists false. eexists. repeat split; try done.
      intros (db' & probe & info & [= <-] & Hc & _). congruence.
    + exists false. eexists. repeat split; try done.
      intros (db' & probe & info & [= <-] & Hc & _). congruence.
    + destruct (native_run native (history w ++ [EvPrepare db "SELECT 1;"]) probe [])
        as [ex|info] eqn:Hr.
      * exists false. eexists. repeat split; try done.
        intros (db' & probe' & info & [= <-] & Hc & Hrun).
        assert (probe' = probe) as -> by congruence. congruence.
      * exists true. eexists. repeat split; try done.
        intros _. by exists db, probe, info.
  - exists false, w. rewrite isDatabaseReady_closed by done.
    repeat split; try done. by intros (db & _ & _ & [=] & _).
Qed.

Section AfterFailure.

Context (native : Native).

Lemma prepare_throw_leaves_miss sql db w :
  ∀ e w',
    sqlite (self w) = Some db →
    prepare native sql w = (Throw e, w') →
    sqlite (self w') = Some db ∧
    preparedStatements (self w') !! sql = None ∧
    (RetryCounter.own_key sql = true →
     RetryCounter.get (retryCounter (self w')) sql = Some 0).
Proof.
  apply (prepare_induction native sql
           (λ w r, ∀ e w', sqlite (self w) = Some db → r = (Throw e, w') →
              sqlite (self w') = Some db ∧
              preparedStatements (self w') !! sql = None ∧
              (RetryCounter.own_key sql = true →
               RetryCounter.get (retryCounter (self w')) sql = Some 0))); clear w.
  - by intros w p w1 _ e w' _.
  - intros w ex w1 [(Hs & _)|(db' & ex' & Hs & Hc & _ & _ & _ & ->)]%prepare_attempt_thrown
      e w' Hdb [= _ <-]; [congruence|].
    simpl. repeat split; try done. intros Hown. by apply counter_get_set.
  - intros w w1 r (db' & ex & c & Hs & _ & _ & _ & _ & _ & ->)%prepare_attempt_recurse
      IH e w' Hdb Hr.
    by apply (IH e w').
Qed.

End AfterFailure.

(** X13.  A failure is not remembered.  When [prepare] has thrown on an
    open handle, the handle is still open, nothing is cached under the text,
    and the counter of the text reads 0 (for every text but ["__proto__"],
    which never has a counter): the next [prepare] of the same text asks the
    engine again, with the whole retry budget. *)
Theorem failed_prepare_is_not_remembered native sql db w e w' :
  sqlite (self w) = Some db →
  prepare native sql w = (Throw e, w') →
  sqlite (self w') = Some db ∧
  preparedStatements (self w') !! sql = None ∧
  (RetryCounter.own_key sql = true →
   RetryCounter.get (retryCounter (self w')) sql = Some 0) ∧
  ∃ tail, history (snd (prepare native sql w')) = history w' ++ EvPrepare db sql :: tail.
Proof.
  intros Hs Hp.
  destruct (prepare_throw_leaves_miss native sql db w e w' Hs Hp) as (Hs' & Hc & Hz).
  repeat split; try done. by apply prepare_miss_compiles.
Qed.

Lemma failed_prepare_is_not_remembered_witness :
  let native := demo_native true in
  let sql := "SELECT id FROM notes;" in
  let w := opened_world true in
  let w' := snd (prepare native sql w) in
  sqlite (self w') = Some (Handle 1) ∧
  preparedStatements (self w') !! sql = None ∧
  (RetryCounter.own_key sql = true →
   RetryCounter.get (retryCounter (self w')) sql = Some 0) ∧
  ∃ tail, history (snd (prepare native sql w'))
            = history w' ++ EvPrepare (Handle 1) sql :: tail.
Proof.
  apply (failed_prepare_is_not_remembered (demo_native true) "SELECT id FROM notes;"
           (Handle 1) (opened_world true)
           (ErrorObj "file is not a database (query: SELECT id FROM notes;)")).
  - reflexivity.
  - vm_compute. reflexivity.
Defined.

(** ** What is thrown, and by whom *)

Lemma annotate_query_appended sql ex : query_appended sql ex (annotate sql ex).
Proof. by destruct ex. Qed.

Lemma query_appended_carries_query sql ex e : query_appended sql ex e → carries_query sql e.
Proof. destruct ex; simpl; intros ->; simpl; [by eexists|done]. Qed.

Section ThrownFacts.

Context (native : Native).

(** What [prepare] throws on an open handle is what the engine threw at the
    compilation recorded last, with the query appended. *)
Lemma prepare_throws_last_error sql w :
  ∀ db e w',
    sqlite (self w) = Some db →
    prepare native sql w = (Throw e, w') →
    ∃ ex h,
      native_prepare native h db sql = CompileThrows ex ∧
      history w' = h ++ [EvPrepare db sql; EvConsoleError [LogThrown ex]] ∧
      e = annotate sql ex.
Proof.
  apply (prepare_induction native sql
           (λ w r, ∀ db e w', sqlite (self w) = Some db → r = (Throw e, w') →
              ∃ ex h,
                native_prepare native h db sql = CompileThrows ex ∧
                history w' = h ++ [EvPrepare db sql; EvConsoleError [LogThrown ex]] ∧
                e = annotate sql ex)); clear w.
  - by intros w p w1 _ db e w' _.
  - intros w ex w1 [(Hs & _)|(db' & ex' & Hs & _ & Hn & _ & -> & ->)]%prepare_attempt_thrown
      db e w' Hdb [= <- <-]; [congruence|].
    assert (db' = db) as -> by congruence.
    by exists ex', (history w).
  - intros w w1 r (db' & ex & c & Hs & _ & _ & _ & _ & _ & ->)%prepare_attempt_recurse
      IH db e w' Hdb Hr.
    by apply (IH db e w').
Qed.

(** With no number that [BigInt] refuses, a writer gets its result. *)
Lemma execute_no_offending_number prepared parameters w info :
  reader prepared = false →
  native_run native (history w) prepared parameters = inr info →
  offending_number info = None →
  ∃ r w2, execute native prepared parameters w = (Return r, w2).
Proof.
  intros Hr Hrun Hoff. unfold execute. unfold_m. rewrite Hr. simpl. rewrite Hrun.
  destruct info as [c i]. unfold offending_number in Hoff. simpl in *.
  assert (Hc : ∃ a, (match c with
                     | Defined c0 =>
                         if isNaN c0 then λ w, (Return None, w)
                         else match BigInt (native_toString native) c0 with
                              | inl ex => λ w, (Throw ex, w)
                              | inr z => λ w, (Return (Some z), w)
                              end
                     | _ => λ w, (Return None, w)
                     end : M (option Z)) = (λ w, (Return a, w))).
  { destruct c as [| |c]; [by eexists|by eexists|].
    destruct (isNaN c); simpl in *; [by eexists|].
    destruct (not_an_integer c) eqn:Hn; [done|].
    destruct (BigInt_accepts (native_toString native) c Hn) as [z ->]. by eexists. }
  destruct Hc as [a ->].
  assert (Hrow : match i with
                 | Defined (RowNumber m) => if not_an_integer m then Some m else None
                 | _ => None
                 end = None).
  { destruct c as [| |c]; try done.
    destruct (isNaN c); simpl in *; [done|]. by destruct (not_an_integer c). }
  destruct i as [| |[m|z]]; simpl; try (by eexists _, _).
  destruct (not_an_integer m) eqn:Hm; [done|].
  destruct (BigInt_accepts (native_toString native) m Hm) as [z ->]. by eexists _, _.
Qed.

(** What the [try] block throws is the engine's error, or [BigInt]'s. *)
Lemma execute_throws prepared parameters w ex w2 :
  execute native prepared parameters w = (Throw ex, w2) →
  thrown_by_execution native prepared parameters (history w) ex.
Proof.
  intros H. unfold thrown_by_execution.
  destruct (reader prepared) eqn:Hr.
  - unfold execute, bind, ret, throw, emit, get_history in H. rewrite Hr in H.
    simpl in H.
    destruct (native_all native (history w) prepared parameters) as [e|rs]; [|done].
    by injection H as <- _.
  - destruct (native_run native (history w) prepared parameters) as [e|info] eqn:Hrun.
    + left. unfold execute, bind, ret, throw, emit, get_history in H. rewrite Hr in H.
      simpl in H. rewrite Hrun in H. by injection H as <- _.
    + right. destruct (offending_number info) as [n|] eqn:Hoff.
      * rewrite (execute_offending_number native prepared parameters w info n Hr Hrun Hoff)
          in H.
        injection H as <- _. by exists info, n.
      * destruct (execute_no_offending_number prepared parameters w info Hr Hrun Hoff)
          as (r & w3 & Hx).
        rewrite Hx in H. done.
Qed.

(** What [flipped] and [quiet] say of a call whose probe the engine answers. *)
Lemma isDatabaseReady_engine w db :
  sqlite (self w) = Some db →
  fst (isDatabaseReady native w) = Return (engine_ready native db (history w)).
Proof.
  intros Hs. unfold isDatabaseReady, engine_ready. unfold_m. rewrite Hs. simpl.
  destruct (native_prepare native (history w) db "SELECT 1;") as [ex| |probe]; simpl;
    try done.
  by destruct (native_run native (history w ++ [EvPrepare db "SELECT 1;"]) probe []).
Qed.

Lemma probe_in_exec_engine sql parameters w b :
  probe_in_exec native sql parameters w = Some b →
  b = true → ∃ db h, engine_ready native db h = true.
Proof.
  unfold probe_in_exec.
  destruct (prepare native sql w) as [[[prepared|]|e] w1]; try done.
  destruct (extensionsLoaded _); [done|].
  destruct (sqlite (self (snd (execute native prepared parameters w1)))) as [db|] eqn:Hs.
  - rewrite (isDatabaseReady_engine _ db Hs). intros [= <-] Hb. by eexists _, _.
  - rewrite isDatabaseReady_closed by done. simpl. by intros [= <-].
Qed.

Lemma call_never_ready c w :
  never_ready native → quiet w (call native c w).
Proof.
  intros Hnever.
  assert (Hexec : ∀ sql parameters, quiet w (snd (exec native sql parameters w))).
  { intros sql parameters.
    pose proof (exec_step native sql parameters w) as H. simpl in H.
    destruct (probe_in_exec native sql parameters w) as [[|]|] eqn:Hp; try done.
    destruct (probe_in_exec_engine sql parameters w true Hp eq_refl) as (db & h & Hr).
    by rewrite Hnever in Hr. }
  destruct c as [filePath|sql|sql parameters|sql parameters| |filePath]; simpl.
  - apply open_quiet.
  - apply prepare_frame_quiet, prepare_keeps_frame.
  - apply Hexec.
  - unfold run. unfold_m. destruct (sqlite (self w)); [apply Hexec|done].
  - apply close_quiet.
  - apply delete_quiet.
Qed.

Lemma calls_never_ready cs : ∀ w,
  never_ready native → quiet w (calls native cs w).
Proof.
  induction cs as [|c cs IH]; intros w Hnever; [done|].
  rewrite calls_cons. eapply quiet_trans; [by apply call_never_ready|by apply IH].
Qed.

End ThrownFacts.

(** C8.  On an open connection, every error that [prepare] or [exec] lets
    through carries the query.  What [prepare] throws once it gives up is the
    value the engine threw at the last compilation it was asked for; what
    [exec] throws is that value, when the preparation failed, or else the
    value the execution threw (the engine's from [all] or [run], or
    [BigInt]'s).  In each case, when that value is an [Error] with message
    [m], the caller gets an [Error] whose message is [m] followed by
    [" (query: "], the SQL text of the call and [")"]; a thrown value that is
    no [Error] is passed on as it is. *)
Theorem surfaced_errors_carry_query native w db :
  sqlite (self w) = Some db →
  (∀ sql e w',
     prepare native sql w = (Throw e, w') →
     ∃ ex h,
       native_prepare native h db sql = CompileThrows ex ∧
       history w' = h ++ [EvPrepare db sql; EvConsoleError [LogThrown ex]] ∧
       query_appended sql ex e ∧ carries_query sql e) ∧
  (∀ sql parameters e w',
     exec native sql parameters w = (Throw e, w') →
     ∃ ex,
       query_appended sql ex e ∧ carries_query sql e ∧
       ((∃ h, native_prepare native h db sql = CompileThrows ex ∧
              history w' = h ++ [EvPrepare db sql; EvConsoleError [LogThrown ex]]) ∨
        (∃ prepared w1,
           prepare native sql w = (Return (Some prepared), w1) ∧
           thrown_by_execution native prepared parameters (history w1) ex))).
Proof.
  intros Hs. split.
  - intros sql e w' Hp.
    destruct (prepare_throws_last_error native sql w db e w' Hs Hp) as (ex & h & Hn & Hh & ->).
    exists ex, h. repeat split; try done.
    + apply annotate_query_appended.
    + eapply query_appended_carries_query, annotate_query_appended.
  - intros sql parameters e w'. rewrite exec_unfold.
    destruct (prepare native sql w) as [[[prepared|]|e1] w1] eqn:Hp.
    + destruct (try_catch _ _ w1) as [c w2] eqn:Ht. intros [= -> _].
      apply guarded_execute_throws in Ht as (ex & Hx & ->).
      exists ex. repeat split.
      * apply annotate_query_appended.
      * eapply query_appended_carries_query, annotate_query_appended.
      * right. exists prepared, w1. split; [done|]. by eapply execute_throws.
    + done.
    + intros [= <- <-].
      destruct (prepare_throws_last_error native sql w db e1 w1 Hs Hp)
        as (ex & h & Hn & Hh & ->).
      exists ex. repeat split.
      * apply annotate_query_appended.
      * eapply query_appended_carries_query, annotate_query_appended.
      * left. by exists h.
Qed.

Lemma surfaced_errors_carry_query_witness :
  let native := demo_native false in
  let w := opened_world false in
  let insert := "INSERT INTO notes (id) VALUES (?);" in
  (∃ ex h,
     native_prepare native h (Handle 1) "SELEC 1" = CompileThrows ex ∧
     history (snd (prepare native "SELEC 1" w))
       = h ++ [EvPrepare (Handle 1) "SELEC 1"; EvConsoleError [LogThrown ex]] ∧
     query_appended "SELEC 1" ex (ErrorObj "syntax error (query: SELEC 1)") ∧
     carries_query "SELEC 1" (ErrorObj "syntax error (query: SELEC 1)")) ∧
  (∃ ex,
     query_appended insert ex
       (ErrorObj ("Too many parameter values were provided (query: " +:+ insert +:+ ")")) ∧
     carries_query insert
       (ErrorObj ("Too many parameter values were provided (query: " +:+ insert +:+ ")")) ∧
     ((∃ h, native_prepare native h (Handle 1) insert = CompileThrows ex ∧
            history (snd (exec native insert [PNull; PNull] w))
              = h ++ [EvPrepare (Handle 1) insert; EvConsoleError [LogThrown ex]]) ∨
      (∃ prepared w1,
         prepare native insert w = (Return (Some prepared), w1) ∧
         thrown_by_execution native prepared [PNull; PNull] (history w1) ex))).
Proof.
  destruct (surfaced_errors_carry_query (demo_native false) (opened_world false) (Handle 1)
              eq_refl) as [Hprepare Hexec].
  split.
  - apply (Hprepare "SELEC 1" _ (snd (prepare (demo_native false) "SELEC 1"
                                        (opened_world false)))).
    vm_compute. reflexivity.
  - apply (Hexec "INSERT INTO notes (id) VALUES (?);" [PNull; PNull] _
             (snd (exec (demo_native false) "INSERT INTO notes (id) VALUES (?);"
                     [PNull; PNull] (opened_world false)))).
    vm_compute. reflexivity.
Defined.

(** X3.  A compilation that never goes through, from a counter that holds
    [c]: [prepare] announces [5 - c] retries (five from a counter at 0), asks
    for one compilation more than that, resets the counter to 0 and throws
    what the engine threw at the last of these compilations, with the query
    appended to its message. *)
Theorem prepare_gives_up_after_the_bound native sql db w c :
  sqlite (self w) = Some db →
  preparedStatements (self w) !! sql = None →
  RetryCounter.get (retryCounter (self w)) sql = Some c →
  always_fails native db sql →
  ∃ ex h e w',
    prepare native sql w = (Throw e, w') ∧
    native_prepare native h db sql = CompileThrows ex ∧
    history w' = h ++ [EvPrepare db sql; EvConsoleError [LogThrown ex]] ∧
    query_appended sql ex e ∧
    self w' = counted sql 0 (self w) ∧
    RetryCounter.get (retryCounter (self w')) sql = Some 0 ∧
    retries sql (history w') = retries sql (history w) + (5 - c) ∧
    compilations sql (history w') = compilations sql (history w) + S (5 - c).
Proof.
  intros Hs Hc Hget Hfail.
  destruct (prepare_exhausts_retries native sql db (5 - c) w c eq_refl Hs Hc Hget Hfail)
    as (ex0 & _ & w' & Hp & _ & Hself & Hzero & Hr & Hcmp).
  destruct (prepare_throws_last_error native sql w db _ w' Hs Hp) as (ex & h & Hn & Hh & He).
  rewrite He in Hp. exists ex, h, (annotate sql ex), w'.
  repeat split; try done. apply annotate_query_appended.
Qed.

Lemma prepare_gives_up_after_the_bound_witness :
  let native := demo_native false in
  let w := snd (prepare native "SELEC 1" (opened_world false)) in
  ∃ ex h e w',
    prepare native "SELEC 1" w = (Throw e, w') ∧
    native_prepare native h (Handle 1) "SELEC 1" = CompileThrows ex ∧
    history w' = h ++ [EvPrepare (Handle 1) "SELEC 1"; EvConsoleError [LogThrown ex]] ∧
    query_appended "SELEC 1" ex e ∧
    self w' = counted "SELEC 1" 0 (self w) ∧
    RetryCounter.get (retryCounter (self w')) "SELEC 1" = Some 0 ∧
    retries "SELEC 1" (history w') = retries "SELEC 1" (history w) + (5 - 0) ∧
    compilations "SELEC 1" (history w') = compilations "SELEC 1" (history w) + S (5 - 0).
Proof.
  apply (prepare_gives_up_after_the_bound (demo_native false) "SELEC 1" (Handle 1)
           (snd (prepare (demo_native false) "SELEC 1" (opened_world false))) 0).
  - reflexivity.
  - reflexivity.
  - reflexivity.
  - intros h. eexists. reflexivity.
Defined.

(** The error of the sixth compilation, as the caller gets it. *)
Example prepare_gives_up_run :
  let native := demo_native false in
  let w := snd (prepare native "SELEC 1" (opened_world false)) in
  fst (prepare native "SELEC 1" w) = Throw (ErrorObj "syntax error (query: SELEC 1)") ∧
  retries "SELEC 1" (history (snd (prepare native "SELEC 1" w))) = 5.
Proof. vm_compute. done. Qed.

(** ** The flag, the probe and the engine *)

Section ReadyFacts.

Context (native : Native).

(** An [exec] that has a statement to execute while the flag is down, by
    what the engine answers to the probe. *)
Lemma exec_by_engine sql parameters w prepared w1 db :
  prepare native sql w = (Return (Some prepared), w1) →
  sqlite (self w) = Some db →
  extensionsLoaded (self w) = false →
  let h2 := history w1 ++ [execution_event prepared parameters] in
  let w' := snd (exec native sql parameters w) in
  probe_in_exec native sql parameters w = Some (engine_ready native db h2) ∧
  if engine_ready native db h2
  then extensionsLoaded (self w') = true ∧
       loads (history w') = loads (history w) ++ extension_loads (Some db) ∧
       ∃ probe,
         history w' =
           h2 ++ [EvPrepare db "SELECT 1;"; EvRun probe []] ++ extension_loads (Some db)
  else extensionsLoaded (self w') = false ∧ loads (history w') = loads (history w).
Proof.
  intros Hp Hs He h2 w'.
  pose proof (prepare_keeps_frame native sql w) as Hframe.
  rewrite Hp in Hframe. simpl in Hframe.
  destruct (prepare_frame_quiet _ _ Hframe) as [_ Hloads1].
  destruct Hframe as (Hs1 & _ & He1 & _).
  rewrite Hs in Hs1. rewrite He in He1.
  set (w2 := mkWorld (self w1) h2).
  assert (Hloads2 : loads h2 = loads (history w)).
  { unfold h2. rewrite loads_app, Hloads1. unfold execution_event.
    destruct (reader prepared); simpl; by rewrite app_nil_r. }
  pose proof (isDatabaseReady_engine native w2 db Hs1) as Hready.
  destruct (isDatabaseReady_spec native w2) as (b & added & Hb & Hadded & Htrue).
  rewrite Hb in Hready. simpl in Hready. injection Hready as Hready.
  assert (Hexec : w' = if b
                       then mkWorld (set_extensionsLoaded true (self w1))
                              ((h2 ++ added) ++ extension_loads (sqlite (self w1)))
                       else mkWorld (self w1) (h2 ++ added)).
  { unfold w'. rewrite exec_unfold, Hp.
    pose proof (guarded_execute_world native sql prepared parameters w1) as Hw.
    rewrite execute_world in Hw. fold h2 in Hw. fold w2 in Hw.
    destruct (try_catch _ _ w1) as [c w2']. simpl in Hw. subst w2'. cbn [snd].
    rewrite (load_extensions_pending native w2 b _ He1 Hb). by destruct b. }
  split.
  - unfold probe_in_exec. rewrite Hp, execute_world. cbn [self]. rewrite He1.
    change (mkWorld (self w1) (history w1 ++ [execution_event prepared parameters]))
      with w2.
    rewrite Hb. simpl. by rewrite Hready.
  - fold h2. rewrite <- Hready. rewrite Hexec. destruct b.
    + destruct (Htrue eq_refl) as (db' & probe & info & Hs' & _ & _ & ->).
      simpl in Hs'. assert (db' = db) as -> by congruence.
      simpl. rewrite Hs1. repeat split.
      * rewrite !loads_app, Hloads2. simpl. by rewrite app_nil_r.
      * exists probe. by rewrite <- app_assoc.
    + simpl. split; [done|]. by rewrite loads_app, Hadded, app_nil_r.
Qed.

End ReadyFacts.

(** C3.  The flag is down until the engine has answered a probe, and goes up
    exactly once.  An [exec] that has a statement to execute while the flag is
    down probes the engine after the execution: as long as the engine does not
    compile and run [SELECT 1;] on the open handle (the database is not yet
    decrypted) the probe reports false, the flag stays down and nothing is
    loaded, and with an engine that never answers no sequence of calls loads
    anything; the call at which the engine does answer raises the flag and
    adds exactly the one pair of loads, for the open handle, right after the
    probe.  From a raised flag no sequence of calls, of any method, moves the
    flag or loads anything again; over the whole life of a worker the loads
    recorded are none while the flag is down and that one pair once it is
    up. *)
Theorem extensions_load_once native :
  (∀ sql parameters w prepared w1 db,
     prepare native sql w = (Return (Some prepared), w1) →
     sqlite (self w) = Some db →
     extensionsLoaded (self w) = false →
     let h2 := history w1 ++ [execution_event prepared parameters] in
     let w' := snd (exec native sql parameters w) in
     probe_in_exec native sql parameters w = Some (engine_ready native db h2) ∧
     if engine_ready native db h2
     then extensionsLoaded (self w') = true ∧
          loads (history w') = loads (history w) ++ extension_loads (Some db) ∧
          ∃ probe,
            history w' =
              h2 ++ [EvPrepare db "SELECT 1;"; EvRun probe []] ++ extension_loads (Some db)
     else extensionsLoaded (self w') = false ∧ loads (history w') = loads (history w)) ∧
  (never_ready native → ∀ cs w, quiet w (calls native cs w)) ∧
  (∀ sql parameters w,
     let w' := snd (exec native sql parameters w) in
     match probe_in_exec native sql parameters w with
     | Some true => flipped w w'
     | Some false => extensionsLoaded (self w) = false ∧ quiet w w'
     | None => quiet w w'
     end) ∧
  (∀ cs w, extensionsLoaded (self w) = true → quiet w (calls native cs w)) ∧
  (∀ cs h,
     let w' := calls native cs (constructor h) in
     ∃ db, loads (history w') =
             loads h ++ if extensionsLoaded (self w') then extension_loads (Some db) else []).
Proof.
  split; [|split; [|split; [|split]]].
  - intros sql parameters w prepared w1 db. apply exec_by_engine.
  - intros Hnever cs w. by apply calls_never_ready.
  - intros sql parameters w. simpl.
    pose proof (exec_step native sql parameters w) as H. simpl in H.
    destruct (probe_in_exec native sql parameters w) as [[|]|] eqn:Hp; try done.
    split; [|done].
    destruct (extensionsLoaded (self w)) eqn:He; [|done].
    by rewrite probe_in_exec_loaded in Hp.
  - intros cs w. apply calls_loaded.
  - intros cs h. simpl.
    assert (Hh : loads (history (constructor h)) = loads h).
    { unfold constructor. simpl. by rewrite loads_app, app_nil_r. }
    destruct (calls_step native cs (constructor h)) as [[He Hl]|(_ & He & db & Hl)].
    + exists (Handle 0). rewrite He, Hl, Hh. simpl. by rewrite app_nil_r.
    + exists db. by rewrite He, Hl, Hh.
Qed.

Lemma extensions_load_once_witness :
  let native := demo_native true in
  let cipher := "PRAGMA cipher = 'sqlcipher';" in
  let key := "PRAGMA key = 'secret';" in
  let w0 := snd (exec native "SELECT id FROM notes;" [] (opened_world true)) in
  let w := snd (exec native cipher [] w0) in
  let before := history (snd (prepare native cipher w0))
                  ++ [execution_event (mkStatement 4 cipher false) []] in
  let at_key := history (snd (prepare native key w))
                  ++ [execution_event (mkStatement 7 key false) []] in
  (probe_in_exec native cipher [] w0 = Some (engine_ready native (Handle 1) before) ∧
   if engine_ready native (Handle 1) before
   then extensionsLoaded (self (snd (exec native cipher [] w0))) = true ∧
        loads (history (snd (exec native cipher [] w0)))
          = loads (history w0) ++ extension_loads (Some (Handle 1)) ∧
        ∃ probe,
          history (snd (exec native cipher [] w0)) =
            before ++ [EvPrepare (Handle 1) "SELECT 1;"; EvRun probe []]
              ++ extension_loads (Some (Handle 1))
   else extensionsLoaded (self (snd (exec native cipher [] w0))) = false ∧
        loads (history (snd (exec native cipher [] w0))) = loads (history w0)) ∧
  (probe_in_exec native key [] w = Some (engine_ready native (Handle 1) at_key) ∧
   if engine_ready native (Handle 1) at_key
   then extensionsLoaded (self (snd (exec native key [] w))) = true ∧
        loads (history (snd (exec native key [] w)))
          = loads (history w) ++ extension_loads (Some (Handle 1)) ∧
        ∃ probe,
          history (snd (exec native key [] w)) =
            at_key ++ [EvPrepare (Handle 1) "SELECT 1;"; EvRun probe []]
              ++ extension_loads (Some (Handle 1))
   else extensionsLoaded (self (snd (exec native key [] w))) = false ∧
        loads (history (snd (exec native key [] w))) = loads (history w)).
Proof.
  split.
  - apply (proj1 (extensions_load_once (demo_native true))
             "PRAGMA cipher = 'sqlcipher';" []
             (snd (exec (demo_native true) "SELECT id FROM notes;" [] (opened_world true)))
             (mkStatement 4 "PRAGMA cipher = 'sqlcipher';" false)
             (snd (prepare (demo_native true) "PRAGMA cipher = 'sqlcipher';"
                     (snd (exec (demo_native true) "SELECT id FROM notes;" []
                             (opened_world true)))))
             (Handle 1)).
    + vm_compute. reflexivity.
    + reflexivity.
    + reflexivity.
  - apply (proj1 (extensions_load_once (demo_native true))
             "PRAGMA key = 'secret';" []
             (snd (exec (demo_native true) "PRAGMA cipher = 'sqlcipher';" []
                     (snd (exec (demo_native true) "SELECT id FROM notes;" []
                             (opened_world true)))))
             (mkStatement 7 "PRAGMA key = 'secret';" false)
             (snd (prepare (demo_native true) "PRAGMA key = 'secret';"
                     (snd (exec (demo_native true) "PRAGMA cipher = 'sqlcipher';" []
                             (snd (exec (demo_native true) "SELECT id FROM notes;" []
                                     (opened_world true)))))))
             (Handle 1)).
    + vm_compute. reflexivity.
    + reflexivity.
    + reflexivity.
Defined.

(** The same two calls, evaluated: the engine does not answer before the
    key is applied, and answers at the call that applies it. *)
Example extensions_load_with_the_engine_run :
  let native := demo_native true in
  let cipher := "PRAGMA cipher = 'sqlcipher';" in
  let key := "PRAGMA key = 'secret';" in
  let w0 := snd (exec native "SELECT id FROM notes;" [] (opened_world true)) in
  let w := snd (exec native cipher [] w0) in
  let w' := snd (exec native key [] w) in
  engine_ready native (Handle 1)
    (history (snd (prepare native cipher w0))
       ++ [execution_event (mkStatement 4 cipher false) []]) = false ∧
  extensionsLoaded (self w) = false ∧ loads (history w) = [] ∧
  engine_ready native (Handle 1)
    (history (snd (prepare native key w))
       ++ [execution_event (mkStatement 7 key false) []]) = true ∧
  extensionsLoaded (self w') = true ∧
  loads (history w') = extension_loads (Some (Handle 1)).
Proof. vm_compute. done. Qed.
